(** * The gate of the scheduler: task store handlers, node registration and
    the status listing, over a model of the etcd key-value service.

    Source files: [gate/gate.go] (Gate, init, registerGateNode,
    registerRuntimeWithKeepalive, stream, createTask, stopTask, SubMain) and
    the status handler (func (g *Gate) status).

    The etcd client is an external library: its operations are modelled here
    after the etcd v3 API (revisions, conditional transactions, range reads,
    leases).  Everything in [Module gate] follows the Go source line by
    line. *)

From Stdlib Require Import ZArith Lia.
From stdpp Require Import gmap strings list sorting.

Local Open Scope Z_scope.

(** ** Go results: a value or an error (the text of [err.Error()]). *)

Inductive Result (A : Type) : Type :=
  | Ok (a : A)
  | Err (err : string).
Arguments Ok {A} a.
Arguments Err {A} err.

(** ** The etcd key-value service *)

Module etcd.

(** mvccpb.KeyValue without its key (the key is the index of the map). *)
Record KeyValue : Type := mkKeyValue {
  Value : string;
  CreateRevision : Z;
  ModRevision : Z;
  Version : Z;
  Lease : Z
}.

#[global] Instance KeyValue_eq_dec : EqDecision KeyValue.
Proof. solve_decision. Defined.

(** A granted lease: its time to live and the instant at which it runs
    out unless it is renewed. *)
Record LeaseInfo : Type := mkLease {
  ttl : Z;
  expiry : Z
}.

Record Etcd : Type := mkEtcd {
  kvs : gmap string KeyValue;
  revision : Z;
  leases : gmap Z LeaseInfo;
  next_lease : Z;
  now : Z
}.

Definition empty : Etcd :=
  {| kvs := ∅; revision := 1; leases := ∅; next_lease := 1; now := 0 |}.

Definition with_kvs (e : Etcd) (m : gmap string KeyValue) (rev : Z) : Etcd :=
  {| kvs := m; revision := rev; leases := leases e;
     next_lease := next_lease e; now := now e |}.

(** The creation revision of a key, 0 when the key does not exist. *)
Definition create_revision (e : Etcd) (key : string) : Z :=
  match kvs e !! key with
  | Some kv => CreateRevision kv
  | None => 0
  end.

(** One put at revision [rev]: a new key is created at [rev] with version
    1, an existing key keeps its creation revision. *)
Definition put_at (rev : Z) (lease : Z) (m : gmap string KeyValue)
    (key val : string) : gmap string KeyValue :=
  match m !! key with
  | Some kv =>
      <[key := {| Value := val; CreateRevision := CreateRevision kv;
                  ModRevision := rev; Version := Version kv + 1;
                  Lease := lease |}]> m
  | None =>
      <[key := {| Value := val; CreateRevision := rev; ModRevision := rev;
                  Version := 1; Lease := lease |}]> m
  end.

(** clientv3.OpPut(key, val) *)
Record Op : Type := OpPut { op_key : string; op_val : string }.

Definition apply_ops (rev : Z) (ops : list Op) (m : gmap string KeyValue)
    : gmap string KeyValue :=
  foldl (fun acc o => put_at rev 0 acc (op_key o) (op_val o)) m ops.

(** KV.Put(key, val, WithLease(lease)); lease 0 is no lease. *)
Definition Put (key val : string) (lease : Z) (e : Etcd) : Etcd :=
  with_kvs e (put_at (revision e + 1) lease (kvs e) key val) (revision e + 1).

Definition Delete (key : string) (e : Etcd) : Etcd :=
  match kvs e !! key with
  | Some _ => with_kvs e (delete key (kvs e)) (revision e + 1)
  | None => e
  end.

(** clientv3.Compare(clientv3.CreateRevision(key), "=", v) *)
Record Cmp : Type := CompareCreateRevisionEq { cmp_key : string; cmp_val : Z }.

Definition check (e : Etcd) (c : Cmp) : bool :=
  create_revision e (cmp_key c) =? cmp_val c.

Record TxnResponse : Type := mkTxnResponse { Succeeded : bool }.

(** txn.If(c).Then(thens...).Else().Commit(): when the comparison holds
    all the puts are applied at one new revision; otherwise the empty Else
    branch runs and nothing is written. *)
Definition Txn (c : Cmp) (thens : list Op) (e : Etcd) : TxnResponse * Etcd :=
  if check e c
  then ({| Succeeded := true |},
        with_kvs e (apply_ops (revision e + 1) thens (kvs e)) (revision e + 1))
  else ({| Succeeded := false |}, e).

Record GetResponse : Type := mkGetResponse {
  Kvs : list (string * KeyValue);
  Count : Z
}.

Definition keys_only (kv : string * KeyValue) : string * KeyValue :=
  (kv.1, {| Value := ""; CreateRevision := CreateRevision kv.2;
            ModRevision := ModRevision kv.2; Version := Version kv.2;
            Lease := Lease kv.2 |}).

(** KV.Get(key): the single key, if present. *)
Definition Get (key : string) (e : Etcd) : GetResponse :=
  match kvs e !! key with
  | Some kv => {| Kvs := [(key, kv)]; Count := 1 |}
  | None => {| Kvs := []; Count := 0 |}
  end.

(** KV.Get(key, WithKeysOnly()) *)
Definition GetKeysOnly (key : string) (e : Etcd) : GetResponse :=
  let r := Get key e in {| Kvs := keys_only <$> Kvs r; Count := Count r |}.

Inductive SortOrder : Type := SortAscend | SortDescend.

Definition key_le (a b : string * KeyValue) : Prop := String.le a.1 b.1.

#[global] Instance key_le_dec : RelDecision key_le.
Proof. intros a b. unfold key_le. apply _. Defined.
#[global] Instance key_le_trans : Transitive key_le.
Proof. intros a b c. unfold key_le. apply transitivity. Qed.
#[global] Instance key_le_total : Total key_le.
Proof. intros a b. unfold key_le. apply total, _. Qed.

Definition in_range (start end_ : string) (key : string) : bool :=
  bool_decide (String.le start key) && negb (bool_decide (String.le end_ key)).

(** The keys of [[start, end_)] in ascending key order. *)
Definition range_asc (start end_ : string) (e : Etcd) : list (string * KeyValue) :=
  merge_sort key_le
    (filter (fun kv => in_range start end_ kv.1 = true) (map_to_list (kvs e))).

(** WithLimit(n): the first n entries; n <= 0 is no limit. *)
Definition limited {A} (limit : Z) (l : list A) : list A :=
  if 0 <? limit then take (Z.to_nat limit) l else l.

(** KV.Get(start, WithRange(end_), WithSort(SortByKey, order),
    WithLimit(limit)): the range is sorted first and cut afterwards;
    Count is the number of keys in the range, whatever the limit. *)
Definition GetRange (start end_ : string) (order : SortOrder) (limit : Z)
    (e : Etcd) : GetResponse :=
  let all := range_asc start end_ e in
  let sorted := match order with SortAscend => all | SortDescend => reverse all end in
  {| Kvs := limited limit sorted; Count := Z.of_nat (length all) |}.

(** KV.Get(prefix, WithCountOnly(), WithPrefix()) *)
Definition GetCountPrefix (prefix : string) (e : Etcd) : GetResponse :=
  {| Kvs := [];
     Count := Z.of_nat (length
       (filter (fun kv => String.prefix prefix kv.1 = true) (map_to_list (kvs e)))) |}.

(** *** Leases *)

(** Lease.Grant(ttl): a fresh lease that runs out [ttl] from now. *)
Definition Grant (t : Z) (e : Etcd) : Z * Etcd :=
  (next_lease e,
   {| kvs := kvs e; revision := revision e;
      leases := <[next_lease e := {| ttl := t; expiry := now e + t |}]> (leases e);
      next_lease := next_lease e + 1; now := now e |}).

(** Lease.KeepAliveOnce(id): a live lease runs out one ttl from now; an
    unknown (expired) lease is not revived. *)
Definition KeepAliveOnce (id : Z) (e : Etcd) : Etcd :=
  match leases e !! id with
  | Some l =>
      {| kvs := kvs e; revision := revision e;
         leases := <[id := {| ttl := ttl l; expiry := now e + ttl l |}]> (leases e);
         next_lease := next_lease e; now := now e |}
  | None => e
  end.

Definition lease_live (e : Etcd) (id : Z) : bool :=
  match leases e !! id with
  | Some l => now e <? expiry l
  | None => false
  end.

(** Time passes: leases that ran out are revoked and the keys attached to
    them are deleted. *)
Definition advance (dt : Z) (e : Etcd) : Etcd :=
  let t := now e + Z.max 0 dt in
  let live := filter (fun p => t < expiry p.2) (leases e) in
  let kept := filter (fun p => Lease p.2 = 0 ∨ is_Some (live !! Lease p.2)) (kvs e) in
  {| kvs := kept;
     revision := if decide (kept = kvs e) then revision e else revision e + 1;
     leases := live; next_lease := next_lease e; now := t |}.

End etcd.

(** ** The etcd client as the gate sees it

    Every client call is a round trip to a service that other clients use
    too.  A [World] is the store together with a script of what surrounds
    the coming calls: before each call the writes of other clients (and the
    passing of time) take effect, and the call itself either goes through or
    fails with an error, in which case the Go client hands back a nil
    response and the call has had no effect on the store.  An exhausted
    script means undisturbed calls. *)

Module client.
Import etcd.

Inductive Foreign : Type :=
  | FPut (key val : string)
  | FDelete (key : string)
  | FTick (dt : Z).

Definition foreign (e : Etcd) (f : Foreign) : Etcd :=
  match f with
  | FPut key val => Put key val 0 e
  | FDelete key => Delete key e
  | FTick dt => advance dt e
  end.

Record Turn : Type := mkTurn {
  others : list Foreign;
  fault : option string
}.

Record World : Type := mkWorld {
  store : Etcd;
  script : list Turn
}.

(** A world in which nothing interferes and nothing fails. *)
Definition quiet (e : Etcd) : World := {| store := e; script := [] |}.

Definition call {A : Type} (f : Etcd -> A * Etcd) (w : World) : Result A * World :=
  match script w with
  | [] =>
      let '(a, e) := f (store w) in (Ok a, {| store := e; script := [] |})
  | t :: rest =>
      let e0 := foldl foreign (store w) (others t) in
      match fault t with
      | Some err => (Err err, {| store := e0; script := rest |})
      | None =>
          let '(a, e) := f e0 in (Ok a, {| store := e; script := rest |})
      end
  end.

(** The store as the other clients alone leave it after [n] calls of the
    gate: what the world looks like if the gate itself writes nothing. *)
Fixpoint bystanders (n : nat) (w : World) : Etcd :=
  match n, script w with
  | S n', t :: rest =>
      bystanders n' {| store := foldl foreign (store w) (others t); script := rest |}
  | _, _ => store w
  end.

Definition read {A : Type} (f : Etcd -> A) : World -> Result A * World :=
  call (fun e => (f e, e)).

Definition write (f : Etcd -> Etcd) : World -> Result unit * World :=
  call (fun e => (tt, f e)).

End client.

(** ** Names and constants of package model *)

Module model.

(** Modelled from the spec: model.GlobalTaskPrefix, the prefix of the task
    definitions in the key layout of section 6. *)
Definition GlobalTaskPrefix : string := "/scheduler/task/global/".

(** Modelled from the spec: model.GlobalTaskPrefixState, the prefix of the
    task states in the key layout of section 6. *)
Definition GlobalTaskPrefixState : string := "/scheduler/task/state/".

(** Modelled from the spec: the prefix of the gate nodes in the key layout
    of section 6. *)
Definition GateNodePrefix : string := "/scheduler/gate/node/".

(** Modelled from the spec: the prefix of the runtime nodes in the key
    layout of section 6. *)
Definition RuntimeNodePrefix : string := "/scheduler/runtime/node/".

(** Modelled from the spec: model.FullGlobalTaskPath,
    /scheduler/task/global/<taskName>. *)
Definition FullGlobalTaskPath (taskName : string) : string :=
  GlobalTaskPrefix +:+ taskName.

(** Modelled from the spec: model.FullGlobalTaskStatePath,
    /scheduler/task/state/<taskName>. *)
Definition FullGlobalTaskStatePath (taskName : string) : string :=
  GlobalTaskPrefixState +:+ taskName.

(** Modelled from the spec: model.FullGateNodePath,
    /scheduler/gate/node/<name>. *)
Definition FullGateNodePath (name : string) : string :=
  GateNodePrefix +:+ name.

(** Modelled from the spec: model.FullRuntimeNodePath,
    /scheduler/runtime/node/<name>. *)
Definition FullRuntimeNodePath (name : string) : string :=
  RuntimeNodePrefix +:+ name.

(** Modelled from the spec: model.CanRun, the initial state of a task. *)
Definition CanRun : string := "CanRun".

(** Modelled from the spec: model.Param, a task definition: its unique
    name and an opaque executor description. *)
Record ExecuterParam : Type := mkExecuter {
  TaskName : string;
  Spec : string
}.
Record Param : Type := mkParam { Executer : ExecuterParam }.

(** Modelled from the spec: model.Whoami, the first message of a worker. *)
Record Whoami : Type := mkWhoami { Name : string }.

(** Modelled from the spec: model.StatusRequest, the query of the status
    listing. *)
Record StatusRequest : Type := mkStatusRequest {
  ID : string;
  StartKey : string;
  Limit : Z;
  Sort : string;
  Format : string
}.

(** Modelled from the spec: model.State, the TaskState of section 3, with
    the fields the status handler reads; times are kept as their printed
    form. *)
Record State : Type := mkState {
  TaskID : string;
  StateTaskName : string;
  StateState : string;
  Action : string;
  RuntimeNode : string;
  InRuntime : bool;
  CreateTime : string;
  UpdateTime : string
}.

End model.

(** ** Package gate *)

Module gate.
Import etcd client.

(** time.Duration is an int64 count of nanoseconds. *)
Definition wrap64 (z : Z) : Z := (z + 2 ^ 63) mod 2 ^ 64 - 2 ^ 63.
Definition Second : Z := 1000000000.

Record Gate : Type := mkGate {
  ServerAddr : string;
  AutoFindAddr : bool;
  EtcdAddr : list string;
  NamePrefix : string;
  Name : string;
  Level : string;
  LeaseTime : Z
}.

Definition with_Name (r : Gate) (name : string) : Gate :=
  {| ServerAddr := ServerAddr r; AutoFindAddr := AutoFindAddr r;
     EtcdAddr := EtcdAddr r; NamePrefix := NamePrefix r; Name := name;
     Level := Level r; LeaseTime := LeaseTime r |}.

Definition with_LeaseTime (r : Gate) (d : Z) : Gate :=
  {| ServerAddr := ServerAddr r; AutoFindAddr := AutoFindAddr r;
     EtcdAddr := EtcdAddr r; NamePrefix := NamePrefix r; Name := Name r;
     Level := Level r; LeaseTime := d |}.

(** fmt.Sprintf("%s-%s", g.NamePrefix, g.Name) *)
Definition NodeName (g : Gate) : string :=
  NamePrefix g +:+ "-" +:+ Name g.

(** The request as gin binds it: the body for the task handlers, the
    query for the status handler. *)
Record Context : Type := mkContext {
  ShouldBind : Result model.Param;
  ShouldBindQuery : Result model.StatusRequest
}.

Record stateRsp : Type := mkStateRsp {
  rTaskID : string;
  rTaskName : string;
  rAction : string;
  rRuntimeNode : string;
  rInRuntime : bool;
  rCreateTime : string;
  rUpdateTime : string;
  rIp : string
}.

Record taskStatusList : Type := mkTaskStatusList {
  Total : Z;
  Items : list stateRsp;
  StartKey : string
}.

(** What a handler writes to the connection. *)
Inductive Reply : Type :=
  | JSONMessage (status code : Z) (message : string)
  | JSONStatus (status : Z) (data : taskStatusList)
  | Table (status : Z) (header : list string) (rows : list (list string)).

(** How a handler ends: with a reply, without writing anything, or in a
    run-time panic. *)
Inductive Outcome : Type :=
  | Replied (r : Reply)
  | Silent
  | Panicked (reason : string).

(** How a plain function ends. *)
Inductive Exit (A : Type) : Type :=
  | Returned (a : A)
  | Panic (msg : string).
Arguments Returned {A} a.
Arguments Panic {A} msg.

(** c.JSON(200, gin.H{"code": 0, "message": ""}) *)
Definition ok : Outcome := Replied (JSONMessage 200 0 "").

(** c.JSON(500, gin.H{"code": code, "message": msg}) *)
Definition error (code : Z) (msg : string) : Outcome :=
  Replied (JSONMessage 500 code msg).

(** Modelled from the spec: error2, the helper of the status handler, is
    not part of the sources at hand; handler errors collapse to the same
    {code, message} reply. *)
Definition error2 (code : Z) (msg : string) : Outcome :=
  Replied (JSONMessage 500 code msg).

Definition nil_dereference : string :=
  "invalid memory address or nil pointer dereference".

Section Handlers.

(** Parts of other packages the handlers use: model.RuntimeKeepalive,
    encoding/json on a request, model.ValueToState and
    utils.GetUnusedAddr. *)
Variable RuntimeKeepalive : Z.
Variable json_Marshal : model.Param -> Result string.
Variable ValueToState : string -> Result model.State.
Variable GetUnusedAddr : string.

(** func (r *Gate) init() (err error); [uuid] is what uuid.New() draws.
    utils.NewEtcdClient is one round trip that leaves the store alone. *)
Definition init (uuid : string) (r : Gate) (w : World)
    : (Gate * option string) * World :=
  let r := if decide (Name r = "") then with_Name r uuid else r in
  let r :=
    if LeaseTime r <? RuntimeKeepalive
    then with_LeaseTime r (wrap64 (RuntimeKeepalive + Second))
    else r in
  match read (fun _ => tt) w with
  | (Err err, w) => ((r, Some err), w)
  | (Ok _, w) => ((r, None), w)
  end.

Definition getAddress (r : Gate) : string :=
  if negb (bool_decide (ServerAddr r = "")) then ServerAddr r
  else if AutoFindAddr r then GetUnusedAddr
  else "".

(** func (r *Gate) registerGateNode() error.
    Modelled from the spec: utils.NewLeaseWithKeepalive grants a lease
    of the given time to live. *)
Definition registerGateNode (r : Gate) (w : World)
    : Exit (option string) * World :=
  let addr := getAddress r in
  if bool_decide (addr = "")
  then (Panic "The service startup address is empty, please set -s ip:port", w)
  else
    match call (Grant (LeaseTime r)) w with
    | (Err err, w) => (Returned (Some err), w)
    | (Ok leaseID, w) =>
        match write (Put (model.FullGateNodePath (NodeName r)) (ServerAddr r) leaseID) w with
        | (Err err, w) => (Returned (Some err), w)
        | (Ok _, w) => (Returned None, w)
        end
    end.

(** The process after SubMain: it died in a panic, or the HTTP server
    runs. *)
Inductive Process : Type :=
  | Aborted (msg : string)
  | Serving (r : Gate) (w : World).

(** func (r *Gate) SubMain().  registerGateNode runs in a goroutine of
    its own: a panic there takes the process down, what it returns goes
    nowhere. *)
Definition SubMain (uuid : string) (r : Gate) (w : World) : Process :=
  match init uuid r w with
  | ((_, Some err), _) => Aborted err
  | ((r, None), w) =>
      match registerGateNode r w with
      | (Panic msg, _) => Aborted msg
      | (Returned _, w) => Serving r w
      end
  end.

(** func (r *Gate) createTask(c *gin.Context) *)
Definition createTask (c : Context) (w : World) : Outcome * World :=
  match ShouldBind c with
  | Err err => (error 500 ("createTask:" +:+ err), w)
  | Ok req =>
      let globalTaskName :=
        model.FullGlobalTaskPath (model.TaskName (model.Executer req)) in
      let globalTaskStateName :=
        model.FullGlobalTaskStatePath (model.TaskName (model.Executer req)) in
      match read (GetKeysOnly globalTaskName) w with
      | (Err _, w) => (Panicked nil_dereference, w)
      | (Ok rsp, w) =>
          if (0 <? length (Kvs rsp))%nat
          then (error 500 ("duplicate creation:" +:+ globalTaskName), w)
          else
            match json_Marshal req with
            | Err err => (error 500 ("marshal req:" +:+ err), w)
            | Ok all =>
                match call (Txn (CompareCreateRevisionEq globalTaskName 0)
                                [OpPut globalTaskName all;
                                 OpPut globalTaskStateName model.CanRun]) w with
                | (Err err, w) => (error 500 ("事务执行失败err :" +:+ err), w)
                | (Ok txnRsp, w) =>
                    if negb (Succeeded txnRsp)
                    then (error 500 "事务失败", w)
                    else (ok, w)
                end
            end
      end
  end.

(** func (r *Gate) deleteTask, updateTask, stopTask: empty bodies. *)
Definition deleteTask (c : Context) (w : World) : Outcome * World := (Silent, w).
Definition updateTask (c : Context) (w : World) : Outcome * World := (Silent, w).
Definition stopTask (c : Context) (w : World) : Outcome * World := (Silent, w).

(** *** The status listing *)

Definition title : list string :=
  ["id"; "taskName"; "status"; "action"; "runtimeNode"; "InRuntime";
   "createTime"; "updateTime"; "runtimeIP"].

Definition xff : Ascii.ascii := Ascii.ascii_of_N 255.

(** model.GlobalTaskPrefixState + "\xff\xff\xff\xff\xff\xff\xff\xff" *)
Definition endGlobalTaskKey : string :=
  model.GlobalTaskPrefixState +:+
  String xff (String xff (String xff (String xff
    (String xff (String xff (String xff (String xff EmptyString))))))).

(** fmt.Sprintf("%t", b) *)
Definition fmt_bool (b : bool) : string := if b then "true" else "false".

(** deepcopy.Copy(&status, &s).Do(): the fields the two structs share by
    name; stateRsp.Ip has no counterpart and keeps its zero value. *)
Definition copy_state (s : model.State) : stateRsp :=
  {| rTaskID := model.TaskID s; rTaskName := model.StateTaskName s;
     rAction := model.Action s; rRuntimeNode := model.RuntimeNode s;
     rInRuntime := model.InRuntime s; rCreateTime := model.CreateTime s;
     rUpdateTime := model.UpdateTime s; rIp := "" |}.

(** The body of [for _, kv := range resp.Kvs]: an early reply on an
    error, otherwise the rows and items gathered. *)
Fixpoint status_loop (p : model.StatusRequest) (kvs : list (string * KeyValue))
    (data : list (list string)) (list_ : list stateRsp) (w : World)
    : (Outcome + list (list string) * list stateRsp) * World :=
  match kvs with
  | [] => (inr (data, list_), w)
  | kv :: rest =>
      match ValueToState (Value kv.2) with
      | Err err => (inl (error2 500 err), w)
      | Ok s =>
          let lookup :=
            if (0 <? String.length (model.RuntimeNode s))%nat
            then
              match read (Get (model.RuntimeNode s)) w with
              | (Err err, w) => (Err err, w)
              | (Ok resp, w) =>
                  (Ok (match Kvs resp with
                       | kv0 :: _ => Value kv0.2
                       | [] => ""
                       end), w)
              end
            else (Ok "", w) in
          match lookup with
          | (Err err, w) => (inl (error2 500 err), w)
          | (Ok ip, w) =>
              if bool_decide (model.Format p = "table")
              then
                let one :=
                  [model.TaskID s; model.StateTaskName s; model.StateState s;
                   model.Action s; model.RuntimeNode s;
                   fmt_bool (model.InRuntime s); model.CreateTime s;
                   model.UpdateTime s; ip] in
                status_loop p rest (data ++ [one]) list_ w
              else status_loop p rest data (list_ ++ [copy_state s]) w
          end
      end
  end.

(** The start key and the limit a query is served with. *)
Definition status_limit (p : model.StatusRequest) : Z :=
  if model.Limit p =? 0 then 10 else model.Limit p.

Definition status_startKey (p : model.StatusRequest) : string :=
  if bool_decide (model.ID p = "") && negb (bool_decide (model.StartKey p = ""))
  then model.StartKey p
  else model.GlobalTaskPrefixState.

Definition status_sortOrder (p : model.StatusRequest) : SortOrder :=
  if String.prefix "-" (model.Sort p) then SortDescend else SortAscend.

(** func (g *Gate) status(ctx *gin.Context) *)
Definition status (ctx : Context) (w : World) : Outcome * World :=
  match ShouldBindQuery ctx with
  | Err err => (error2 500 ("bind query:" +:+ err), w)
  | Ok p =>
      let limit := status_limit p in
      let startKey := status_startKey p in
      let sortOrder := status_sortOrder p in
      match read (GetRange startKey endGlobalTaskKey sortOrder limit) w with
      | (Err err, w) => (error2 500 err, w)
      | (Ok resp, w) =>
          match read (GetCountPrefix model.GlobalTaskPrefixState) w with
          | (Err err2, w) => (error2 500 err2, w)
          | (Ok resp2, w) =>
              match status_loop p (Kvs resp) [] [] w with
              | (inl out, w) => (out, w)
              | (inr (data, list_), w) =>
                  if bool_decide (model.Format p = "table")
                  then (Replied (Table 200 title data), w)
                  else if bool_decide (model.Format p = "json")
                  then (Replied (JSONStatus 200
                          {| Total := Count resp2; Items := list_;
                             StartKey := startKey |}), w)
                  else (Silent, w)
              end
          end
      end
  end.

(** *** Worker sessions: stream and registerRuntimeWithKeepalive

    The handler of a session and the registration routine it starts run
    as two goroutines that meet on the unbuffered channel [keepalive].
    A session is the pair of their program points, the frames still to
    arrive on the connection, the world, and the calls issued so far. *)

(** Where [stream] stands: in [con.ReadJSON] (with the value of
    [first]), in [keepalive <- true], or past its loop. *)
Inductive Handler : Type :=
  | Reading (first : bool)
  | Sending
  | Closed.

(** Where [registerRuntimeWithKeepalive] stands: not started, before
    utils.NewLease, before the Put, in [for range keepalive], before
    [lease.KeepAliveOnce], or returned with the error of NewLease. *)
Inductive Routine : Type :=
  | NotStarted
  | Granting (runtimeName : string)
  | Putting (runtimeName : string) (leaseID : Z)
  | Waiting (leaseID : Z)
  | Renewing (leaseID : Z)
  | ReturnedErr (err : string).

Inductive Event : Type :=
  | Received (req : model.Whoami)
  | LoopEnded
  | NewLease (leaseID : Z)
  | PutNode (key val : string) (leaseID : Z)
  | KeepAlive (leaseID : Z).

Record Session : Type := mkSession {
  handler : Handler;
  routine : Routine;
  inbox : list (Result model.Whoami);
  world : World;
  trace : list Event
}.

(** func (r *Gate) stream(c *gin.Context), up to its loop: a failed
    upgrade returns at once. *)
Definition stream (upgrade : Result unit) (frames : list (Result model.Whoami))
    (w : World) : Session :=
  match upgrade with
  | Err _ =>
      {| handler := Closed; routine := NotStarted; inbox := frames;
         world := w; trace := [] |}
  | Ok _ =>
      {| handler := Reading true; routine := NotStarted; inbox := frames;
         world := w; trace := [] |}
  end.

(** One turn of the loop of [stream].  A read waits for a frame; a read
    error leaves the loop; the first frame starts the routine with the
    name it carries, every later one is sent on the channel, and the
    send completes only when the routine is receiving. *)
Definition step_handler (s : Session) : option Session :=
  match handler s with
  | Reading first =>
      match inbox s with
      | [] => None
      | Err _ :: rest =>
          Some {| handler := Closed; routine := routine s; inbox := rest;
                  world := world s; trace := trace s ++ [LoopEnded] |}
      | Ok req :: rest =>
          if first
          then Some {| handler := Reading false;
                       routine := Granting (model.Name req);
                       inbox := rest; world := world s;
                       trace := trace s ++ [Received req] |}
          else Some {| handler := Sending; routine := routine s;
                       inbox := rest; world := world s;
                       trace := trace s ++ [Received req] |}
      end
  | Sending =>
      match routine s with
      | Waiting leaseID =>
          Some {| handler := Reading false; routine := Renewing leaseID;
                  inbox := inbox s; world := world s; trace := trace s |}
      | _ => None
      end
  | Closed => None
  end.

(** One call of [registerRuntimeWithKeepalive].
    Modelled from the spec: utils.NewLease grants a lease of the given
    time to live. *)
Definition step_routine (r : Gate) (s : Session) : option Session :=
  match routine s with
  | Granting runtimeName =>
      match call (Grant (LeaseTime r)) (world s) with
      | (Err err, w) =>
          Some {| handler := handler s; routine := ReturnedErr err;
                  inbox := inbox s; world := w; trace := trace s |}
      | (Ok leaseID, w) =>
          Some {| handler := handler s; routine := Putting runtimeName leaseID;
                  inbox := inbox s; world := w;
                  trace := trace s ++ [NewLease leaseID] |}
      end
  | Putting runtimeName leaseID =>
      let key := model.FullRuntimeNodePath (NodeName r) in
      let '(_, w) := write (Put key (ServerAddr r) leaseID) (world s) in
      Some {| handler := handler s; routine := Waiting leaseID;
              inbox := inbox s; world := w;
              trace := trace s ++ [PutNode key (ServerAddr r) leaseID] |}
  | Renewing leaseID =>
      let '(_, w) := write (KeepAliveOnce leaseID) (world s) in
      Some {| handler := handler s; routine := Waiting leaseID;
              inbox := inbox s; world := w;
              trace := trace s ++ [KeepAlive leaseID] |}
  | NotStarted | Waiting _ | ReturnedErr _ => None
  end.

(** Who moves next: one of the two goroutines, or time. *)
Inductive Who : Type :=
  | TheHandler
  | TheRoutine
  | Clock (dt : Z).

Definition step (r : Gate) (who : Who) (s : Session) : option Session :=
  match who with
  | TheHandler => step_handler s
  | TheRoutine => step_routine r s
  | Clock dt =>
      Some {| handler := handler s; routine := routine s; inbox := inbox s;
              world := {| store := advance dt (store (world s));
                          script := script (world s) |};
              trace := trace s |}
  end.

(** A schedule is played in order; a goroutine that cannot move when its
    turn comes stays where it is. *)
Fixpoint run (r : Gate) (sched : list Who) (s : Session) : Session :=
  match sched with
  | [] => s
  | who :: rest =>
      match step r who s with
      | Some s' => run r rest s'
      | None => run r rest s
      end
  end.

(** Counting in a trace. *)
Definition is_KeepAlive (ev : Event) : bool :=
  match ev with KeepAlive _ => true | _ => false end.
Definition is_Received (ev : Event) : bool :=
  match ev with Received _ => true | _ => false end.

Definition renewals (t : list Event) : nat := length (List.filter is_KeepAlive t).
Definition received (t : list Event) : nat := length (List.filter is_Received t).

(** The renewals issued after the read loop has ended. *)
Fixpoint renewals_after_end (t : list Event) : nat :=
  match t with
  | [] => 0%nat
  | LoopEnded :: rest => renewals rest
  | _ :: rest => renewals_after_end rest
  end.

End Handlers.

End gate.

(** ** The account handlers of manage_router.go *)

Module manage.

Definition secretToken : string := "@@112233".
Definition serverName : string := "ktuo".

(** time.Hour * 24, in nanoseconds. *)
Definition day : Z := 24 * 3600 * 1000000000.

(** LoginCore as the handlers use it: the ID of the embedded gorm.Model (a
    uint), the user name and the password. *)
Record LoginCore : Type := mkLoginCore {
  ID : Z;
  UserName : string;
  Password : string
}.

(** uint(id) for a 64-bit int. *)
Definition to_uint (id : Z) : Z := id mod 2 ^ 64.

(** The request as gin binds it. *)
Record Context : Type := mkContext {
  ShouldBindJSON : Result LoginCore;
  Param_id : string
}.

(** What a handler writes: the {code, message} of [g.error], or a token
    header (if set) and a wrapLoginData with its Data (if any), status 200. *)
Inductive Reply : Type :=
  | Failure (status code : Z) (message : string)
  | Data (token : option string) (data : option LoginCore).

(** The byte '%'. *)
Definition percent : Ascii.ascii := Ascii.ascii_of_N 37.

Fixpoint has_percent (s : string) : bool :=
  match s with
  | EmptyString => false
  | String c rest => if Ascii.eqb c percent then true else has_percent rest
  end.

Section Handlers.

(** The account table and its operations (loginDb), md5sum, jwt.GenToken,
    strconv.Atoi, and what fmt.Sprintf makes of a format that holds verbs
    but is given no operands. *)
Variable DB : Type.
Variable insert : LoginCore -> DB -> option string * DB.
Variable queryNeedPassword : LoginCore -> DB -> Result LoginCore.
Variable query : LoginCore -> DB -> Result LoginCore.
Variable delete : LoginCore -> DB -> option string * DB.
Variable md5sum : string -> string.
Variable GenToken : Z -> string -> string -> Result string.
Variable Atoi : string -> Result Z.
Variable Sprintf_verbs : string -> string.

(** fmt.Sprintf(format) without operands: a format without '%' is printed
    as it is. *)
Definition Sprintf0 (format : string) : string :=
  if has_percent format then Sprintf_verbs format else format.

(** g.error(c, 500, format): the text is used as the format. *)
Definition error (code : Z) (format : string) : Reply :=
  Failure 500 code (Sprintf0 format).

(** func (g *Gate) register(c *gin.Context) *)
Definition register (c : Context) (db : DB) : option Reply * DB :=
  match ShouldBindJSON c with
  | Err err => (Some (error 500 err), db)
  | Ok lc =>
      match insert lc db with
      | (Some err, db) => (Some (error 500 err), db)
      | (None, db) => (None, db)
      end
  end.

(** func (g *Gate) login(c *gin.Context) *)
Definition login (c : Context) (db : DB) : Reply :=
  match ShouldBindJSON c with
  | Err err => error 500 err
  | Ok lc =>
      match queryNeedPassword lc db with
      | Err err => error 500 err
      | Ok rv =>
          if negb (bool_decide (UserName rv = UserName lc)) ||
             negb (bool_decide (Password rv = md5sum (Password lc)))
          then error 500 "wrong account"
          else
            match GenToken day serverName secretToken with
            | Err err => error 500 err
            | Ok token => Data (Some token) (Some rv)
            end
      end
  end.

(** func (g *Gate) deleteUser(c *gin.Context) *)
Definition deleteUser (c : Context) (db : DB) : Reply * DB :=
  match Atoi (Param_id c) with
  | Err err => (error 500 err, db)
  | Ok id =>
      let lc := {| ID := to_uint id; UserName := ""; Password := "" |} in
      let '(_, db) := delete lc db in
      (Data None None, db)
  end.

(** func (g *Gate) getUserInfo(c *gin.Context) *)
Definition getUserInfo (c : Context) (db : DB) : Reply :=
  match Atoi (Param_id c) with
  | Err err => error 500 err
  | Ok id =>
      let lc := {| ID := to_uint id; UserName := ""; Password := "" |} in
      match query lc db with
      | Err err => error 500 err
      | Ok rv => Data None (Some rv)
      end
  end.

End Handlers.

End manage.

(** * Properties *)

Import etcd client gate.

(** ** Vocabulary *)

(** *** Task keys and the store a create leaves *)

Definition def_key (req : model.Param) : string :=
  model.FullGlobalTaskPath (model.TaskName (model.Executer req)).
Definition state_key (req : model.Param) : string :=
  model.FullGlobalTaskStatePath (model.TaskName (model.Executer req)).

(** The store a successful create leaves, from the store [e] it commits
    on: the two puts of the Then branch at one new revision. *)
Definition created (req : model.Param) (all : string) (e : Etcd) : Etcd :=
  with_kvs e
    (apply_ops (revision e + 1)
       [OpPut (def_key req) all; OpPut (state_key req) model.CanRun] (kvs e))
    (revision e + 1).

(** [kv] is an entry of the store. *)
Definition stored (e : Etcd) (kv : string * KeyValue) : Prop :=
  kvs e !! kv.1 = Some kv.2.

(** *** Requests *)

Definition post (p : model.Param) : Context :=
  {| ShouldBind := Ok p; ShouldBindQuery := Err "no query" |}.

Definition get (p : model.StatusRequest) : Context :=
  {| ShouldBind := Err "no body"; ShouldBindQuery := Ok p |}.

Definition with_StartKey (p : model.StatusRequest) (k : string) : model.StatusRequest :=
  {| model.ID := model.ID p; model.StartKey := k; model.Limit := model.Limit p;
     model.Sort := model.Sort p; model.Format := model.Format p |}.

(** *** Browsing the status listing *)

(** Appending a zero byte gives the key that follows a key in byte order. *)
Definition zero_byte : string := String (Ascii.ascii_of_N 0) EmptyString.

(** The state key of the task an item of the listing shows. *)
Definition item_key (it : stateRsp) : string :=
  model.FullGlobalTaskStatePath (rTaskName it).

(** The query for the page after a page that ended in [items]: the same
    query, started right after the key of the last item. *)
Definition next_query (p : model.StatusRequest) (items : list stateRsp)
    : option model.StatusRequest :=
  match last items with
  | None => None
  | Some it => Some (with_StartKey p (item_key it +:+ zero_byte))
  end.

Section Listing.
Variable ValueToState : string -> Result model.State.

(** The item the handler makes of an entry in the json format. *)
Definition render_one (kv : string * KeyValue) : option stateRsp :=
  match ValueToState (Value kv.2) with
  | Ok s => Some (copy_state s)
  | Err _ => None
  end.

Definition render (l : list (string * KeyValue)) : list stateRsp := omap render_one l.

(** A client that pages through the listing on an undisturbed store,
    working out each next start key from the last item it was shown; at
    most [n] requests. *)
Fixpoint browse (n : nat) (p : model.StatusRequest) (e : Etcd) : list stateRsp :=
  match n with
  | O => []
  | S n' =>
      match (status ValueToState (get p) (quiet e)).1 with
      | Replied (JSONStatus _ data) =>
          Items data ++
          match next_query p (Items data) with
          | None => []
          | Some p' => browse n' p' e
          end
      | _ => []
      end
  end.

(** A client that starts each next request from the start key the previous
    response carried; [n] requests. *)
Fixpoint follow (n : nat) (p : model.StatusRequest) (e : Etcd) : list stateRsp :=
  match n with
  | O => []
  | S n' =>
      match (status ValueToState (get p) (quiet e)).1 with
      | Replied (JSONStatus _ data) =>
          Items data ++ follow n' (with_StartKey p (StartKey data)) e
      | _ => []
      end
  end.

(** The value of an entry parses as a task state. *)
Definition decodable (kv : string * KeyValue) : Prop :=
  exists s, ValueToState (Value kv.2) = Ok s.

(** It parses as the state of the task its key names. *)
Definition decodes (kv : string * KeyValue) : Prop :=
  exists s, ValueToState (Value kv.2) = Ok s /\
            model.FullGlobalTaskStatePath (model.StateTaskName s) = kv.1.

(** Every entry in the range of the listing holds the state of the task its
    key names. *)
Definition consistent (e : Etcd) : Prop :=
  forall kv, stored e kv ->
    in_range model.GlobalTaskPrefixState endGlobalTaskKey kv.1 = true -> decodes kv.

End Listing.

(** The task state records of a store: the entries under the state prefix. *)
Definition task_states (e : Etcd) : list (string * KeyValue) :=
  filter (fun kv => String.prefix model.GlobalTaskPrefixState kv.1 = true)
         (map_to_list (kvs e)).

(** *** Sessions *)

(** The heartbeats on their way to a renewal: the one the handler is
    sending and the one the routine has received. *)
Definition in_flight (s : Session) : nat :=
  (match handler s with Sending => 1 | _ => 0 end +
   match routine s with Renewing _ => 1 | _ => 0 end)%nat.

(** Lease [id], as long as it exists, has time to live [T] and runs out at
    most [T] from now. *)
Definition lease_ok (T : Z) (id : Z) (e : Etcd) : Prop :=
  forall l, leases e !! id = Some l -> ttl l = T /\ expiry l <= now e + T.

(** The heartbeat the routine has received and not yet renewed for. *)
Definition renewing (s : Session) : nat :=
  match routine s with Renewing _ => 1 | _ => 0 end.

(** Every frame after the first is matched by a renewal issued or by a
    heartbeat in flight. *)
Definition accounted (s : Session) : Prop :=
  (routine s = NotStarted /\ received (trace s) = 0%nat /\
   renewals (trace s) = 0%nat /\ (handler s = Reading true \/ handler s = Closed)) \/
  (handler s <> Reading true /\ routine s <> NotStarted /\
   received (trace s) = S (renewals (trace s) + in_flight s)).

(** After the end of the read loop at most the renewal in flight is
    still issued. *)
Definition ended_once (s : Session) : Prop :=
  match handler s with
  | Closed => (renewals_after_end (trace s) + renewing s <= 1)%nat
  | _ => LoopEnded ∉ trace s
  end.

(** The lease of the session runs out within one time to live. *)
Definition leased (r : Gate) (s : Session) : Prop :=
  match routine s with
  | Putting _ id | Waiting id | Renewing id =>
      lease_ok (LeaseTime r) id (store (world s))
  | _ => True
  end.


(** *** Examples *)

(** A request for the task "build-1", marshalled to its executor
    description. *)
Definition marshal_spec (p : model.Param) : Result string :=
  Ok (model.Spec (model.Executer p)).

Definition build_1 : model.Param := model.mkParam (model.mkExecuter "build-1" "echo").

Definition gate_1 : Gate :=
  {| ServerAddr := "10.0.0.1:8080"; AutoFindAddr := false;
     EtcdAddr := ["127.0.0.1:2379"]; NamePrefix := "gate"; Name := "g1";
     Level := "debug"; LeaseTime := 4 * Second |}.

(** A state value that is just the name of its task. *)
Definition decode_name (v : string) : Result model.State :=
  Ok {| model.TaskID := v; model.StateTaskName := v; model.StateState := model.CanRun;
        model.Action := ""; model.RuntimeNode := ""; model.InRuntime := false;
        model.CreateTime := ""; model.UpdateTime := "" |}.

Definition put_state (name : string) (e : Etcd) : Etcd :=
  Put (model.FullGlobalTaskStatePath name) name 0 e.

Definition two_tasks : Etcd := put_state "b" (put_state "a" etcd.empty).

Definition five_tasks : Etcd :=
  put_state "e" (put_state "d" (put_state "c" (put_state "b" (put_state "a" etcd.empty)))).

Definition query (limit : Z) : model.StatusRequest :=
  {| model.ID := ""; model.StartKey := ""; model.Limit := limit;
     model.Sort := ""; model.Format := "json" |}.

(** A session of worker-1: the whoami, one heartbeat, then the connection
    breaks. *)
Definition frames_1 : list (Result model.Whoami) :=
  [Ok (model.mkWhoami "worker-1"); Ok (model.mkWhoami ""); Err "EOF"].

(** A schedule of that session in which the handler reads the end of the
    connection before the routine has renewed for the heartbeat. *)
Definition sched_1 : list Who :=
  [TheHandler; TheRoutine; TheRoutine; TheHandler; TheHandler; TheHandler; TheRoutine].

(** *** Further requests and stores *)

(** The query [p] with its id and start key cleared. *)
Definition from_start (p : model.StatusRequest) : model.StatusRequest :=
  {| model.ID := ""; model.StartKey := ""; model.Limit := model.Limit p;
     model.Sort := model.Sort p; model.Format := model.Format p |}.

(** The entries the range read of a query returns on the store [e]. *)
Definition served_page (p : model.StatusRequest) (e : Etcd) : list (string * KeyValue) :=
  Kvs (GetRange (status_startKey p) endGlobalTaskKey
         (status_sortOrder p) (status_limit p) e).

(** The address shown for a task state: the value under the key its
    RuntimeNode names, empty when the task is bound to no node or the node
    has no record. *)
Definition node_ip (e : Etcd) (s : model.State) : string :=
  if (0 <? String.length (model.RuntimeNode s))%nat
  then match kvs e !! model.RuntimeNode s with
       | Some kv => Value kv
       | None => ""
       end
  else "".

(** The row of the table for a task state. *)
Definition table_row (e : Etcd) (s : model.State) : list string :=
  [model.TaskID s; model.StateTaskName s; model.StateState s; model.Action s;
   model.RuntimeNode s; fmt_bool (model.InRuntime s); model.CreateTime s;
   model.UpdateTime s; node_ip e s].

Section Rows.
Variable ValueToState : string -> Result model.State.

(** The rows of the table for the entries of a page. *)
Definition table_rows (e : Etcd) (l : list (string * KeyValue)) : list (list string) :=
  omap (fun kv => match ValueToState (Value kv.2) with
                  | Ok s => Some (table_row e s)
                  | Err _ => None
                  end) l.

End Rows.

(** The store after a registration of the runtime node on [e]: the lease,
    then the key attached to it. *)
Definition registered (r : Gate) (e : Etcd) : Etcd :=
  Put (model.FullRuntimeNodePath (NodeName r)) (ServerAddr r) (next_lease e)
      (Grant (LeaseTime r) e).2.

(** *** Further vocabulary of sessions *)

(** The session [s] going on in the world [w] that other sessions have
    shaped meanwhile. *)
Definition with_world (s : Session) (w : World) : Session :=
  {| handler := handler s; routine := routine s; inbox := inbox s;
     world := w; trace := trace s |}.

(** A frame, a program point, an event and a session with the names the
    worker sent blanked out. *)
Definition blank (f : Result model.Whoami) : Result model.Whoami :=
  match f with
  | Ok _ => Ok (model.mkWhoami "")
  | Err err => Err err
  end.

Definition blank_routine (ro : Routine) : Routine :=
  match ro with
  | Granting _ => Granting ""
  | Putting _ leaseID => Putting "" leaseID
  | ro => ro
  end.

Definition blank_event (ev : Event) : Event :=
  match ev with
  | Received _ => Received (model.mkWhoami "")
  | ev => ev
  end.

Definition blank_session (s : Session) : Session :=
  {| handler := handler s; routine := blank_routine (routine s);
     inbox := blank <$> inbox s; world := world s;
     trace := blank_event <$> trace s |}.

Definition is_NewLease (ev : Event) : bool :=
  match ev with NewLease _ => true | _ => false end.
Definition is_PutNode (ev : Event) : bool :=
  match ev with PutNode _ _ _ => true | _ => false end.

(** The leases asked for and the node keys put in a trace. *)
Definition grants (t : list Event) : nat := length (List.filter is_NewLease t).
Definition puts (t : list Event) : nat := length (List.filter is_PutNode t).

(** The event is no call on a lease other than [id]. *)
Definition uses (id : Z) (ev : Event) : Prop :=
  match ev with
  | NewLease i | PutNode _ _ i | KeepAlive i => i = id
  | _ => True
  end.

(** The event is no call on a lease at all. *)
Definition leaseless (ev : Event) : Prop :=
  match ev with
  | NewLease _ | PutNode _ _ _ | KeepAlive _ => False
  | _ => True
  end.

(** The messages received, in the order of the trace. *)
Definition messages (t : list Event) : list model.Whoami :=
  omap (fun ev => match ev with Received req => Some req | _ => None end) t.

(** A session asks for one lease at most, puts its key once at most, and
    calls on no other lease. *)
Definition single_lease (s : Session) : Prop :=
  (grants (trace s) +
   match routine s with Granting _ => 1 | _ => 0 end +
   match handler s with Reading true => 1 | _ => 0 end <= 1)%nat /\
  (puts (trace s) + match routine s with Putting _ _ => 1 | _ => 0 end
   = grants (trace s))%nat /\
  (handler s = Reading true -> routine s = NotStarted) /\
  match routine s with
  | Putting _ id | Waiting id | Renewing id => Forall (uses id) (trace s)
  | _ => Forall leaseless (trace s)
  end.

(** The frames [msgs], then a read error, then [rest]: the session has
    received a prefix of [msgs], or it has met the error and left [rest]
    unread. *)
Definition in_order (msgs : list model.Whoami) (err : string)
    (rest : list (Result model.Whoami)) (s : Session) : Prop :=
  (handler s <> Closed /\
   exists k, inbox s = (Ok <$> drop k msgs) ++ Err err :: rest /\
             messages (trace s) = take k msgs) \/
  (handler s = Closed /\ inbox s = rest /\ messages (trace s) = msgs).

(** *** Further examples *)

Definition build_2 : model.Param := model.mkParam (model.mkExecuter "build-2" "make").

(** A store where "build-1" has a state left over but no definition. *)
Definition stale_state : Etcd :=
  Put (state_key build_1) "Running" 0 etcd.empty.

(** A gate that is to find its address by itself. *)
Definition gate_auto : Gate :=
  {| ServerAddr := ""; AutoFindAddr := true;
     EtcdAddr := ["127.0.0.1:2379"]; NamePrefix := "gate"; Name := "g2";
     Level := "debug"; LeaseTime := 4 * Second |}.

(** A state value that names its task; the tasks "a" and "b" are bound to
    the nodes n1 and n2, and the value "bad" does not parse. *)
Definition decode_bound (v : string) : Result model.State :=
  if bool_decide (v = "bad") then Err "invalid character 'b'"
  else Ok {| model.TaskID := v; model.StateTaskName := v;
             model.StateState := model.CanRun; model.Action := "";
             model.RuntimeNode :=
               if bool_decide (v = "a") then "/scheduler/runtime/node/n1"
               else if bool_decide (v = "b") then "/scheduler/runtime/node/n2"
               else "";
             model.InRuntime := bool_decide (v = "a");
             model.CreateTime := ""; model.UpdateTime := "" |}.

(** The tasks a, b, c and a record of the node n1 alone. *)
Definition bound_tasks : Etcd :=
  Put "/scheduler/runtime/node/n1" "10.0.0.9:7000" 0
    (put_state "c" (put_state "b" (put_state "a" etcd.empty))).

(** The same with a record that does not parse between b and c. *)
Definition spoiled_tasks : Etcd :=
  Put (model.FullGlobalTaskStatePath "bb") "bad" 0 bound_tasks.

Definition table_query : model.StatusRequest :=
  {| model.ID := ""; model.StartKey := ""; model.Limit := 0;
     model.Sort := ""; model.Format := "table" |}.

Definition id_query : model.StatusRequest :=
  {| model.ID := "c"; model.StartKey := "/scheduler/task/state/b"; model.Limit := 2;
     model.Sort := ""; model.Format := "json" |}.


(** An account table as a list, with a lookup by user name, a stand-in
    for the hash and a token made of the two constants. *)
Definition accounts : Type := list manage.LoginCore.

Definition find_account (lc : manage.LoginCore) (db : accounts) : Result manage.LoginCore :=
  match List.find (fun a => bool_decide (manage.UserName a = manage.UserName lc)) db with
  | Some a => Ok a
  | None => Err "record not found"
  end.

Definition hash (s : string) : string := "md5:" +:+ s.

Definition token_of (d : Z) (name secret : string) : Result string :=
  Ok (name +:+ "." +:+ secret).

Definition two_accounts : accounts :=
  [manage.mkLoginCore 1 "ann" (hash "pw-ann"); manage.mkLoginCore 2 "bob" (hash "pw-bob")].

Definition sign_in (name pw : string) : manage.Context :=
  {| manage.ShouldBindJSON := Ok (manage.mkLoginCore 0 name pw); manage.Param_id := "" |}.

(** *** Courses of a request *)

(** The error the [n]-th call of a request meets, if that call fails. *)
Definition fault_at (n : nat) (w : World) : option string :=
  script w !! n ≫= fault.

(** No call fails. *)
Definition calm (w : World) : Prop :=
  Forall (fun t => fault t = None) (script w).

(** The next call does not fail, and no other client deletes [key] before
    it is served. *)
Definition kept_until_next (key : string) (w : World) : Prop :=
  match script w with
  | [] => True
  | t :: _ => fault t = None /\ FDelete key ∉ others t
  end.

(** Another client creates the definition of "build-1" between the read
    and the commit of a create. *)
Definition lost_race : World :=
  {| store := etcd.empty;
     script := [mkTurn [] None; mkTurn [FPut (def_key build_1) "theirs"] None] |}.

(** The records a query is served from: those of the store from its start
    key to the end of the listing, in key order. *)
Definition remaining (p : model.StatusRequest) (e : Etcd) : list (string * KeyValue) :=
  range_asc (status_startKey p) endGlobalTaskKey e.

(** Two items a page, from the key of the last of five tasks. *)
Definition late_query : model.StatusRequest :=
  with_StartKey (query 2) (model.FullGlobalTaskStatePath "e").

(** Five tasks, and a sixth that another client adds between the two reads
    of a status request. *)
Definition growing : World :=
  {| store := five_tasks;
     script := [mkTurn [] None;
                mkTurn [FPut (model.FullGlobalTaskStatePath "f") "f"] None] |}.

(** ** Facts *)

(** ** Client calls *)

Lemma call_quiet {A : Type} (f : Etcd -> A * Etcd) (e : Etcd) :
  call f (quiet e) = (Ok (f e).1, quiet (f e).2).
Proof. unfold call, quiet. simpl. by destruct (f e). Qed.

Lemma read_quiet {A : Type} (f : Etcd -> A) (e : Etcd) :
  read f (quiet e) = (Ok (f e), quiet e).
Proof. unfold read. by rewrite call_quiet. Qed.

Lemma write_quiet (f : Etcd -> Etcd) (e : Etcd) :
  write f (quiet e) = (Ok tt, quiet (f e)).
Proof. unfold write. by rewrite call_quiet. Qed.

(** A call that fails hands back no response and writes nothing. *)
Lemma call_fault {A : Type} (f : Etcd -> A * Etcd) (w : World) t rest err :
  script w = t :: rest -> fault t = Some err ->
  call f w = (Err err, {| store := bystanders 1 w; script := rest |}).
Proof. intros Hs Hf. unfold call. simpl. by rewrite Hs, Hf. Qed.

Lemma call_nil {A : Type} (f : Etcd -> A * Etcd) (e : Etcd) :
  call f {| store := e; script := [] |} =
  (Ok (f e).1, {| store := (f e).2; script := [] |}).
Proof. unfold call. simpl. by destruct (f e). Qed.

Lemma call_cons {A : Type} (f : Etcd -> A * Etcd) (e : Etcd) t rest :
  call f {| store := e; script := t :: rest |} =
  match fault t with
  | Some err => (Err err, {| store := foldl foreign e (others t); script := rest |})
  | None => (Ok (f (foldl foreign e (others t))).1,
             {| store := (f (foldl foreign e (others t))).2; script := rest |})
  end.
Proof.
  unfold call. simpl. destruct (fault t); [done|].
  by destruct (f (foldl foreign e (others t))).
Qed.

Lemma read_world {A} (f : Etcd -> A) w :
  (read f w).2 = {| store := bystanders 1 w; script := tail (script w) |}.
Proof.
  unfold read. destruct w as [e [|t rest]].
  - by rewrite call_nil.
  - rewrite call_cons. by destruct (fault t).
Qed.

Lemma bystanders_after n w :
  bystanders n {| store := bystanders 1 w; script := tail (script w) |} =
  bystanders (S n) w.
Proof. destruct w as [e [|t rest]]; simpl; [by destruct n|done]. Qed.

(** In a world where no call fails a read is served from the store as the
    other clients left it, and no call fails afterwards. *)
Lemma read_calm {A} (f : Etcd -> A) w :
  calm w ->
  read f w = (Ok (f (bystanders 1 w)),
              {| store := bystanders 1 w; script := tail (script w) |}) /\
  calm {| store := bystanders 1 w; script := tail (script w) |}.
Proof.
  unfold calm, read. destruct w as [e [|t rest]]; cbn [script store tail bystanders].
  - intros _. by rewrite call_nil.
  - intros [Ht Hrest]%Forall_cons. by rewrite call_cons, Ht.
Qed.

(** What the other clients do leaves a key without a lease in place, unless
    one of them deletes it. *)
Lemma foreign_keeps (key : string) (l : list Foreign) (e : Etcd) :
  FDelete key ∉ l ->
  (exists kv, kvs e !! key = Some kv /\ Lease kv = 0) ->
  exists kv, kvs (foldl foreign e l) !! key = Some kv /\ Lease kv = 0.
Proof.
  revert e. induction l as [|f l IH]; intros e Hl He; [done|].
  apply not_elem_of_cons in Hl as [Hf Hl]. cbn [foldl]. apply IH; [done|].
  destruct He as (kv & Hkv & Hlease). destruct f as [k v|k|dt]; cbn [foreign].
  - unfold Put, with_kvs, put_at. cbn [kvs].
    destruct (decide (k = key)) as [->|Hne].
    + rewrite Hkv, lookup_insert_eq. eauto.
    + destruct (kvs e !! k); rewrite lookup_insert_ne by done; eauto.
  - unfold Delete. destruct (kvs e !! k); [|eauto].
    cbn [with_kvs kvs]. rewrite lookup_delete_ne by congruence. eauto.
  - exists kv. split; [|done]. unfold advance. cbn [kvs].
    apply map_lookup_filter_Some. split; [done|]. by left.
Qed.

(** ** Keys *)

Lemma task_paths_differ (a b : string) :
  model.FullGlobalTaskPath a <> model.FullGlobalTaskStatePath b.
Proof. discriminate. Qed.

Lemma FullGlobalTaskPath_inj : Inj (=) (=) model.FullGlobalTaskPath.
Proof. intros a b H. by apply (String.app_inj model.GlobalTaskPrefix). Qed.

Lemma FullRuntimeNodePath_inj : Inj (=) (=) model.FullRuntimeNodePath.
Proof. intros a b H. by apply (String.app_inj model.RuntimeNodePrefix). Qed.

(** ** The keys-only read of createTask *)

Lemma GetKeysOnly_length (key : string) (e : Etcd) :
  length (Kvs (GetKeysOnly key e)) =
  match kvs e !! key with Some _ => 1%nat | None => 0%nat end.
Proof. unfold GetKeysOnly, Get. by destruct (kvs e !! key). Qed.

(** ** createTask *)

Section CreateTask.
Variable json_Marshal : model.Param -> Result string.

Lemma created_def req all e :
  kvs e !! def_key req = None ->
  kvs (created req all e) !! def_key req =
    Some (mkKeyValue all (revision e + 1) (revision e + 1) 1 0).
Proof.
  intros Hnone. unfold created, apply_ops, put_at. simpl. rewrite Hnone.
  rewrite lookup_insert_ne by apply task_paths_differ.
  destruct (kvs e !! state_key req);
    (rewrite lookup_insert_ne by (apply not_eq_sym, task_paths_differ));
    by rewrite lookup_insert_eq.
Qed.

Lemma created_state req all e :
  exists kv, kvs (created req all e) !! state_key req = Some kv /\
    Value kv = model.CanRun /\ ModRevision kv = revision e + 1.
Proof.
  unfold created, apply_ops, put_at. simpl.
  destruct (kvs e !! def_key req);
    (rewrite lookup_insert_ne by apply task_paths_differ);
    destruct (kvs e !! state_key req);
    rewrite lookup_insert_eq; eauto.
Qed.

Lemma created_other req all e key :
  key <> def_key req -> key <> state_key req ->
  kvs (created req all e) !! key = kvs e !! key.
Proof.
  intros H1 H2. unfold created, apply_ops, put_at. simpl.
  destruct (kvs e !! def_key req);
    (rewrite lookup_insert_ne by apply task_paths_differ);
    destruct (kvs e !! state_key req);
    rewrite !lookup_insert_ne by congruence; done.
Qed.

(** The transaction of createTask on a store: it goes through exactly when
    the creation revision of the definition key is 0, and writes nothing
    otherwise. *)
Lemma Txn_create req all e :
  Txn (CompareCreateRevisionEq (def_key req) 0)
      [OpPut (def_key req) all; OpPut (state_key req) model.CanRun] e =
  if create_revision e (def_key req) =? 0
  then (mkTxnResponse true, created req all e)
  else (mkTxnResponse false, e).
Proof. reflexivity. Qed.

(** What createTask does, with the store it commits on made explicit. *)
Lemma createTask_cases c req w out w' :
  ShouldBind c = Ok req ->
  createTask json_Marshal c w = (out, w') ->
  (out = ok /\ exists n all, json_Marshal req = Ok all /\
      create_revision (bystanders n w) (def_key req) = 0 /\
      store w' = created req all (bystanders n w)) \/
  (out <> ok /\ exists n, store w' = bystanders n w).
Proof.
  intros Hb. unfold createTask. rewrite Hb.
  fold (def_key req) (state_key req).
  assert (Hno : forall (e : Etcd) (n : nat) (msg : string),
    bystanders n w = e ->
    error 500 msg <> ok /\ exists n, e = bystanders n w).
  { intros e n msg <-. split; [discriminate|]. by exists n. }
  destruct w as [e sc]. unfold read.
  destruct sc as [|t1 sc1].
  - (* nothing interferes *)
    rewrite call_nil. cbn [fst snd].
    destruct (0 <? length (Kvs (GetKeysOnly (def_key req) e)))%nat.
    { intros [= <- <-]. right. by apply (Hno _ 0%nat). }
    destruct (json_Marshal req) as [all|err] eqn:Hm.
    2:{ intros [= <- <-]. right. by apply (Hno _ 0%nat). }
    rewrite call_nil, Txn_create.
    destruct (create_revision e (def_key req) =? 0) eqn:Hc; cbn [fst snd Succeeded negb].
    + intros [= <- <-]. left. split; [done|]. exists 0%nat, all.
      cbn [bystanders store]. split; [done|]. split; [lia|done].
    + intros [= <- <-]. right. by apply (Hno _ 0%nat).
  - rewrite call_cons. destruct (fault t1) as [err1|].
    { intros [= <- <-]. right. split; [done|]. by exists 1%nat. }
    cbn [fst snd].
    set (e1 := foldl foreign e (others t1)).
    destruct (0 <? length (Kvs (GetKeysOnly (def_key req) e1)))%nat.
    { intros [= <- <-]. right. by apply (Hno _ 1%nat). }
    destruct (json_Marshal req) as [all|err] eqn:Hm.
    2:{ intros [= <- <-]. right. by apply (Hno _ 1%nat). }
    destruct sc1 as [|t2 sc2].
    + rewrite call_nil, Txn_create.
      destruct (create_revision e1 (def_key req) =? 0) eqn:Hc; cbn [fst snd Succeeded negb].
      * intros [= <- <-]. left. split; [done|]. exists 1%nat, all.
        cbn [bystanders store script]. fold e1. split; [done|]. split; [lia|done].
      * intros [= <- <-]. right. by apply (Hno _ 1%nat).
    + rewrite call_cons. destruct (fault t2) as [err2|].
      { intros [= <- <-]. right. by apply (Hno _ 2%nat). }
      set (e2 := foldl foreign e1 (others t2)).
      rewrite Txn_create.
      destruct (create_revision e2 (def_key req) =? 0) eqn:Hc; cbn [fst snd Succeeded negb].
      * intros [= <- <-]. left. split; [done|]. exists 2%nat, all.
        cbn [bystanders store script]. fold e1 e2. split; [done|]. split; [lia|done].
      * intros [= <- <-]. right. by apply (Hno _ 2%nat).
Qed.

Lemma created_def_value req all e :
  exists kv, kvs (created req all e) !! def_key req = Some kv /\
    Value kv = all /\ ModRevision kv = revision e + 1.
Proof.
  unfold created, apply_ops, put_at. simpl.
  destruct (kvs e !! def_key req) eqn:Hd;
    (rewrite lookup_insert_ne by apply task_paths_differ);
    destruct (kvs e !! state_key req);
    (rewrite lookup_insert_ne by (apply not_eq_sym, task_paths_differ));
    rewrite lookup_insert_eq; eauto.
Qed.

(** On an undisturbed store the keys-only read decides. *)
Lemma createTask_quiet c req e :
  ShouldBind c = Ok req ->
  createTask json_Marshal c (quiet e) =
  match kvs e !! def_key req with
  | Some _ => (error 500 ("duplicate creation:" +:+ def_key req), quiet e)
  | None =>
      match json_Marshal req with
      | Ok all => (ok, quiet (created req all e))
      | Err err => (error 500 ("marshal req:" +:+ err), quiet e)
      end
  end.
Proof.
  intros Hb. unfold createTask. rewrite Hb.
  fold (def_key req) (state_key req).
  rewrite read_quiet, GetKeysOnly_length.
  destruct (kvs e !! def_key req) eqn:Hd; [done|].
  cbn [Nat.ltb Nat.leb].
  destruct (json_Marshal req) as [all|err]; [|done].
  rewrite call_quiet, Txn_create. unfold create_revision. by rewrite Hd.
Qed.

Lemma created_def_lease req all e :
  exists kv, kvs (created req all e) !! def_key req = Some kv /\ Lease kv = 0.
Proof.
  unfold created, apply_ops, put_at. simpl.
  destruct (kvs e !! def_key req) eqn:Hd;
    (rewrite lookup_insert_ne by apply task_paths_differ);
    destruct (kvs e !! state_key req);
    (rewrite lookup_insert_ne by (apply not_eq_sym, task_paths_differ));
    rewrite lookup_insert_eq; eauto.
Qed.

(** The course of a create, call by call: the read is served from the
    store as the other clients left it before the first call, the
    transaction commits on the store as they left it before the second. *)
Lemma createTask_course c req w :
  ShouldBind c = Ok req ->
  createTask json_Marshal c w =
  match fault_at 0 w with
  | Some _ =>
      (Panicked nil_dereference,
       {| store := bystanders 1 w; script := drop 1 (script w) |})
  | None =>
      match kvs (bystanders 1 w) !! def_key req with
      | Some _ =>
          (error 500 ("duplicate creation:" +:+ def_key req),
           {| store := bystanders 1 w; script := drop 1 (script w) |})
      | None =>
          match json_Marshal req with
          | Err err =>
              (error 500 ("marshal req:" +:+ err),
               {| store := bystanders 1 w; script := drop 1 (script w) |})
          | Ok all =>
              match fault_at 1 w with
              | Some err =>
                  (error 500 ("事务执行失败err :" +:+ err),
                   {| store := bystanders 2 w; script := drop 2 (script w) |})
              | None =>
                  if create_revision (bystanders 2 w) (def_key req) =? 0
                  then (ok, {| store := created req all (bystanders 2 w);
                               script := drop 2 (script w) |})
                  else (error 500 "事务失败",
                        {| store := bystanders 2 w; script := drop 2 (script w) |})
              end
          end
      end
  end.
Proof.
  intros Hb. unfold createTask. rewrite Hb.
  fold (def_key req) (state_key req).
  destruct w as [e sc]. unfold read, fault_at. destruct sc as [|t1 sc1].
  - rewrite call_nil. cbn [fst snd script store bystanders lookup list_lookup mbind option_bind drop].
    rewrite GetKeysOnly_length.
    destruct (kvs e !! def_key req); [done|]. cbn [Nat.ltb Nat.leb].
    destruct (json_Marshal req) as [all|err]; [|done].
    rewrite call_nil, Txn_create.
    by destruct (create_revision e (def_key req) =? 0).
  - rewrite call_cons.
    cbn [script store bystanders lookup list_lookup mbind option_bind drop].
    destruct (fault t1) as [err1|]; [done|]. cbn [fst snd].
    set (e1 := foldl foreign e (others t1)).
    rewrite GetKeysOnly_length.
    destruct (kvs e1 !! def_key req); [done|]. cbn [Nat.ltb Nat.leb].
    destruct (json_Marshal req) as [all|err]; [|done].
    destruct sc1 as [|t2 sc2].
    + rewrite call_nil, Txn_create.
      cbn [script store bystanders lookup list_lookup mbind option_bind drop].
      by destruct (create_revision e1 (def_key req) =? 0).
    + rewrite call_cons.
      cbn [script store bystanders lookup list_lookup mbind option_bind drop].
      destruct (fault t2) as [err2|]; [done|].
      rewrite Txn_create.
      by destruct (create_revision _ (def_key req) =? 0).
Qed.

(** A create that follows a successful create of the same name. *)
Lemma createTask_again c req all e sc :
  ShouldBind c = Ok req ->
  kept_until_next (def_key req) {| store := created req all e; script := sc |} ->
  createTask json_Marshal c {| store := created req all e; script := sc |} =
  (error 500 ("duplicate creation:" +:+ def_key req),
   {| store := bystanders 1 {| store := created req all e; script := sc |};
      script := drop 1 sc |}).
Proof.
  intros Hb Hk. rewrite (createTask_course _ _ _ Hb).
  unfold kept_until_next, fault_at in *. cbn [script store] in *.
  destruct sc as [|t sc]; cbn [bystanders script store lookup list_lookup mbind option_bind].
  - destruct (created_def_lease req all e) as (kv & -> & _). done.
  - destruct Hk as [-> Hk].
    destruct (foreign_keeps (def_key req) (others t) (created req all e) Hk
                (created_def_lease req all e)) as (kv & -> & _).
    done.
Qed.

End CreateTask.

(** C1, as amended.  For every create request the write is one conditional
    transaction guarded on creation revision 0 of the definition key: when
    the handler answers success, the store it committed on had that
    creation revision 0 and both the definition and the state key (value
    CanRun) were written at one and the same new revision; when it does not
    answer success it wrote nothing, the store being what the other clients
    alone made of it. *)
Theorem createTask_atomic (json_Marshal : model.Param -> Result string)
    (c : Context) (req : model.Param) (w : World) :
  ShouldBind c = Ok req ->
  let out := (createTask json_Marshal c w).1 in
  let w' := (createTask json_Marshal c w).2 in
  (out = ok ->
     exists n all d s,
       json_Marshal req = Ok all /\
       create_revision (bystanders n w) (def_key req) = 0 /\
       store w' = created req all (bystanders n w) /\
       kvs (store w') !! def_key req = Some d /\
       kvs (store w') !! state_key req = Some s /\
       Value d = all /\ Value s = model.CanRun /\
       ModRevision d = ModRevision s /\
       ModRevision d = revision (bystanders n w) + 1) /\
  (out <> ok -> exists n, store w' = bystanders n w).
Proof.
  intros Hb out w'.
  destruct (createTask_cases json_Marshal c req w out w' Hb)
    as [[Hok (n & all & Hm & Hc & Hs)]|[Hno Hs]].
  { subst out w'. by destruct (createTask json_Marshal c w). }
  - split; [|done]. intros _.
    destruct (created_def_value req all (bystanders n w)) as (d & Hd & Hdv & Hdr).
    destruct (created_state req all (bystanders n w)) as (s & Hs' & Hsv & Hsr).
    exists n, all, d, s. rewrite Hs. repeat split; try done. congruence.
  - split; [done|]. by intros _.
Qed.

Lemma createTask_atomic_witness :
  (createTask marshal_spec (post build_1) (quiet etcd.empty)).1 = ok /\
  exists n, create_revision (bystanders n (quiet etcd.empty)) (def_key build_1) = 0.
Proof.
  split; [reflexivity|].
  destruct (createTask_atomic marshal_spec (post build_1) build_1
              (quiet etcd.empty) eq_refl) as [H _].
  destruct (H eq_refl) as (n & all & d & s & _ & Hc & _).
  by exists n.
Defined.

(** The guard at work: another client creates the definition between the
    read and the commit; the transaction does not go through, the handler
    answers 500 and the other client's definition stands, without a state
    key of ours. *)
Lemma createTask_lost_race :
  let w := {| store := etcd.empty;
              script := [mkTurn [] None;
                         mkTurn [FPut (def_key build_1) "theirs"] None] |} in
  (createTask marshal_spec (post build_1) w).1 = error 500 "事务失败" /\
  Value <$> kvs (store (createTask marshal_spec (post build_1) w).2) !! def_key build_1
    = Some "theirs" /\
  kvs (store (createTask marshal_spec (post build_1) w).2) !! state_key build_1 = None.
Proof. cbn zeta. repeat split; by vm_compute. Qed.

(** C1, as stated, fails: the second of two creates of "build-1" fails, and
    after it both keys of that task exist. *)
Lemma createTask_failed_keys_remain :
  ~ (forall (json_Marshal : model.Param -> Result string) (c : Context)
            (req : model.Param) (w : World),
       ShouldBind c = Ok req ->
       (createTask json_Marshal c w).1 <> ok ->
       kvs (store (createTask json_Marshal c w).2) !! def_key req = None /\
       kvs (store (createTask json_Marshal c w).2) !! state_key req = None).
Proof.
  intros H.
  specialize (H marshal_spec (post build_1) build_1
                (createTask marshal_spec (post build_1) (quiet etcd.empty)).2
                eq_refl).
  assert (Hfail : (createTask marshal_spec (post build_1)
            (createTask marshal_spec (post build_1) (quiet etcd.empty)).2).1 <> ok)
    by (vm_compute; discriminate).
  destruct (H Hfail) as [Hd _]. vm_compute in Hd. discriminate.
Qed.

(** The replies of createTask are told apart by their status, code and
    message. *)
Ltac settle_replies :=
  repeat split; try done;
  try (intros;
       repeat match goal with
              | H : _ /\ _ |- _ => destruct H
              | H : is_Some None |- _ => by destruct H
              | H : exists _, _ |- _ => destruct H
              | H : Replied _ = Replied _ |- _ =>
                  injection H as H; simpl in H; discriminate H
              end;
       by eauto).

(** C2, as stated, fails: a create of "build-1" finds no stored definition,
    another client creates one before the commit, and the answer is
    neither success nor the duplicate error but 500 with the message of the
    failed transaction. *)
Lemma createTask_neither_duplicate_nor_success :
  ~ (forall (json_Marshal : model.Param -> Result string) (c : Context)
            (req : model.Param) (w : World),
       ShouldBind c = Ok req ->
       (is_Some (kvs (store w) !! def_key req) ->
          (createTask json_Marshal c w).1 =
          Replied (JSONMessage 500 500 ("duplicate creation:" +:+ def_key req))) /\
       (kvs (store w) !! def_key req = None ->
          (createTask json_Marshal c w).1 = Replied (JSONMessage 200 0 ""))).
Proof.
  intros H.
  destruct (H marshal_spec (post build_1) build_1 lost_race eq_refl) as [_ Hok].
  specialize (Hok eq_refl). vm_compute in Hok. discriminate Hok.
Qed.

(** C2, as amended.  For every create request that binds, whatever calls
    fail and whatever other clients write between the calls: the answer is
    the duplicate error, 500 with "duplicate creation:<key>", exactly when
    the keys-only read is served and finds a stored definition of that
    task name, and then nothing is written; the answer is success exactly
    when the read is served and finds none, the request marshals, the
    transaction call is served, and the definition key still has creation
    revision 0 on the store the transaction commits on; when another
    client has created the definition between the read and the commit,
    the answer is 500 "事务失败", not the duplicate error, and nothing is
    written.  After a successful create, a second create of the same name
    is answered with the duplicate error and writes nothing, provided its
    read is served and no other client deleted the definition in
    between. *)
Theorem createTask_duplicate (json_Marshal : model.Param -> Result string)
    (c : Context) (req : model.Param) (w : World) :
  ShouldBind c = Ok req ->
  let out := (createTask json_Marshal c w).1 in
  let w' := (createTask json_Marshal c w).2 in
  let duplicate :=
    Replied (JSONMessage 500 500 ("duplicate creation:" +:+ def_key req)) in
  (out = duplicate <->
     fault_at 0 w = None /\ is_Some (kvs (bystanders 1 w) !! def_key req)) /\
  (out = duplicate -> store w' = bystanders 1 w) /\
  (out = Replied (JSONMessage 200 0 "") <->
     fault_at 0 w = None /\ kvs (bystanders 1 w) !! def_key req = None /\
     (exists all, json_Marshal req = Ok all) /\ fault_at 1 w = None /\
     create_revision (bystanders 2 w) (def_key req) = 0) /\
  (fault_at 0 w = None -> kvs (bystanders 1 w) !! def_key req = None ->
   (exists all, json_Marshal req = Ok all) -> fault_at 1 w = None ->
   create_revision (bystanders 2 w) (def_key req) <> 0 ->
   out = Replied (JSONMessage 500 500 "事务失败") /\ store w' = bystanders 2 w) /\
  (out = Replied (JSONMessage 200 0 "") ->
   kept_until_next (def_key req) w' ->
   (createTask json_Marshal c w').1 = duplicate /\
   store (createTask json_Marshal c w').2 = bystanders 1 w').
Proof.
  intros Hb out w' duplicate. subst out w' duplicate.
  pose proof (createTask_course json_Marshal c req w Hb) as Hc.
  destruct (fault_at 0 w) as [err0|] eqn:Hf0.
  { rewrite Hc. cbn [fst snd store]. settle_replies. }
  destruct (kvs (bystanders 1 w) !! def_key req) as [kv|] eqn:Hd.
  { rewrite Hc. cbn [fst snd store]. unfold error. settle_replies. }
  destruct (json_Marshal req) as [all|err] eqn:Hm.
  2:{ rewrite Hc. cbn [fst snd store]. unfold error. settle_replies. }
  destruct (fault_at 1 w) as [err1|] eqn:Hf1.
  { rewrite Hc. cbn [fst snd store]. unfold error. settle_replies. }
  destruct (create_revision (bystanders 2 w) (def_key req) =? 0) eqn:Hr.
  - apply Z.eqb_eq in Hr. rewrite Hc. cbn [fst snd store]. unfold ok.
    settle_replies.
    all: match goal with
         | Hk : kept_until_next _ _ |- _ =>
             by rewrite (createTask_again json_Marshal c req all _ _ Hb Hk)
         end.
  - apply Z.eqb_neq in Hr. rewrite Hc. cbn [fst snd store]. unfold error.
    settle_replies.
Qed.

Lemma createTask_duplicate_witness :
  (createTask marshal_spec (post build_1) (quiet etcd.empty)).1 =
    Replied (JSONMessage 200 0 "") /\
  (createTask marshal_spec (post build_1)
     (createTask marshal_spec (post build_1) (quiet etcd.empty)).2).1 =
    Replied (JSONMessage 500 500 "duplicate creation:/scheduler/task/global/build-1") /\
  (createTask marshal_spec (post build_1) lost_race).1 =
    Replied (JSONMessage 500 500 "事务失败").
Proof.
  destruct (createTask_duplicate marshal_spec (post build_1) build_1
              (quiet etcd.empty) eq_refl) as (_ & _ & Hok & _ & Htwice).
  destruct (createTask_duplicate marshal_spec (post build_1) build_1
              lost_race eq_refl) as (_ & _ & _ & Hlost & _).
  assert (H1 : (createTask marshal_spec (post build_1) (quiet etcd.empty)).1 =
               Replied (JSONMessage 200 0 "")).
  { apply Hok. repeat split; try reflexivity. by eexists. }
  split; [exact H1|]. split.
  - apply Htwice; [exact H1|]. vm_compute. exact I.
  - apply Hlost; try reflexivity.
    + by eexists.
    + vm_compute. discriminate.
Defined.

(** C10.  In createTask the error of the keys-only read is never looked
    at: whenever that read fails, the handler dereferences the nil response
    and ends in a panic, not in a {code, message} reply; nothing was
    written. *)
Theorem createTask_failed_read_panics (json_Marshal : model.Param -> Result string)
    (c : Context) (req : model.Param) (w : World) (t : Turn) (rest : list Turn)
    (err : string) :
  ShouldBind c = Ok req ->
  script w = t :: rest ->
  fault t = Some err ->
  createTask json_Marshal c w =
    (Panicked nil_dereference, {| store := bystanders 1 w; script := rest |}) /\
  (forall r, (createTask json_Marshal c w).1 <> Replied r).
Proof.
  intros Hb Hs Hf.
  assert (H : createTask json_Marshal c w =
    (Panicked nil_dereference, {| store := bystanders 1 w; script := rest |})).
  { unfold createTask. rewrite Hb. unfold read.
    by rewrite (call_fault _ w t rest err Hs Hf). }
  split; [exact H|]. intros r. by rewrite H.
Qed.

Lemma createTask_failed_read_panics_witness :
  (createTask marshal_spec (post build_1)
     {| store := etcd.empty; script := [mkTurn [] (Some "context deadline exceeded")] |}).1
  = Panicked nil_dereference.
Proof.
  by destruct (createTask_failed_read_panics marshal_spec (post build_1) build_1
       {| store := etcd.empty; script := [mkTurn [] (Some "context deadline exceeded")] |}
       (mkTurn [] (Some "context deadline exceeded")) [] "context deadline exceeded"
       eq_refl eq_refl eq_refl) as [-> _].
Defined.

(** ** init and the lease time *)

Lemma init_LeaseTime (RuntimeKeepalive : Z) (uuid : string) (r : Gate) (w : World) :
  LeaseTime (init RuntimeKeepalive uuid r w).1.1 =
  if LeaseTime r <? RuntimeKeepalive
  then wrap64 (RuntimeKeepalive + Second)
  else LeaseTime r.
Proof.
  unfold init.
  destruct (read (fun _ => tt) w) as [[?|?] ?]; cbn [fst snd];
    destruct (decide (Name r = "")); cbn [LeaseTime with_Name];
    destruct (LeaseTime r <? RuntimeKeepalive); reflexivity.
Qed.

Lemma wrap64_small (z : Z) : - 2 ^ 63 <= z < 2 ^ 63 -> wrap64 z = z.
Proof. intros H. unfold wrap64. rewrite Z.mod_small; lia. Qed.

(** Away from the keepalive interval itself the lease time ends up above
    it. *)
Lemma init_LeaseTime_above (RuntimeKeepalive : Z) (uuid : string) (r : Gate) (w : World) :
  - 2 ^ 63 <= RuntimeKeepalive -> RuntimeKeepalive + Second < 2 ^ 63 ->
  LeaseTime r <> RuntimeKeepalive ->
  RuntimeKeepalive < LeaseTime (init RuntimeKeepalive uuid r w).1.1.
Proof.
  intros Hlo Hhi Hne. rewrite init_LeaseTime.
  destruct (LeaseTime r <? RuntimeKeepalive) eqn:Hlt.
  - rewrite wrap64_small; unfold Second in *; lia.
  - apply Z.ltb_ge in Hlt. lia.
Qed.

(** C7.  A configured lease time equal to the keepalive interval passes the
    guard [r.LeaseTime < model.RuntimeKeepalive] untouched: after init the
    lease time equals the interval and is not strictly greater. *)
Theorem init_keeps_lease_equal_to_keepalive (RuntimeKeepalive : Z) (uuid : string)
    (r : Gate) (w : World) :
  let r' := (init RuntimeKeepalive uuid (with_LeaseTime r RuntimeKeepalive) w).1.1 in
  LeaseTime r' = RuntimeKeepalive /\ ~ (RuntimeKeepalive < LeaseTime r').
Proof.
  cbn zeta. rewrite init_LeaseTime. cbn [LeaseTime with_LeaseTime].
  rewrite Z.ltb_irrefl. lia.
Qed.

(** ** SubMain and the registration of the gate *)

Lemma init_addr (RuntimeKeepalive : Z) (uuid : string) (r : Gate) (w : World) :
  ServerAddr (init RuntimeKeepalive uuid r w).1.1 = ServerAddr r /\
  AutoFindAddr (init RuntimeKeepalive uuid r w).1.1 = AutoFindAddr r.
Proof.
  unfold init.
  destruct (read (fun _ => tt) w) as [[?|?] ?]; cbn [fst snd];
    destruct (decide (Name r = "")); cbn [LeaseTime with_Name];
    destruct (_ <? RuntimeKeepalive); done.
Qed.

Lemma init_quiet (RuntimeKeepalive : Z) (uuid : string) (r : Gate) (e : Etcd) :
  (init RuntimeKeepalive uuid r (quiet e)).1.2 = None /\
  (init RuntimeKeepalive uuid r (quiet e)).2 = quiet e.
Proof. unfold init. by rewrite read_quiet. Qed.

(** C5.  When the gate has an address and init succeeds, but the lease of
    the gate node cannot be granted, SubMain goes on to serve: the error
    registerGateNode returns is dropped, and the gate has written nothing
    to the store. *)
Theorem SubMain_serves_unregistered (RuntimeKeepalive : Z) (GetUnusedAddr uuid : string)
    (r : Gate) (e : Etcd) (t0 t1 : Turn) (rest : list Turn) (err : string) :
  ServerAddr r <> "" ->
  fault t0 = None ->
  fault t1 = Some err ->
  let w := {| store := e; script := t0 :: t1 :: rest |} in
  exists r', SubMain RuntimeKeepalive GetUnusedAddr uuid r w =
    Serving r' {| store := bystanders 2 w; script := rest |}.
Proof.
  intros Haddr H0 H1 w. unfold SubMain.
  pose proof (init_addr RuntimeKeepalive uuid r w) as [Hs' _].
  assert (Hi : (init RuntimeKeepalive uuid r w).1.2 = None /\
               (init RuntimeKeepalive uuid r w).2 =
               {| store := bystanders 1 w; script := t1 :: rest |}).
  { unfold init, read. subst w. by rewrite call_cons, H0. }
  destruct Hi as [He Hw].
  destruct (init RuntimeKeepalive uuid r w) as [[r' e'] w'].
  cbn [fst snd] in *. subst e' w'. exists r'.
  unfold registerGateNode, getAddress. rewrite Hs'.
  rewrite (bool_decide_eq_false_2 _ Haddr). cbn [negb].
  rewrite (bool_decide_eq_false_2 _ Haddr).
  by rewrite (call_fault _ _ t1 rest err).
Qed.

Lemma SubMain_serves_unregistered_witness :
  exists r' w',
    SubMain (3 * Second) "" "uuid" gate_1
      {| store := etcd.empty;
         script := [mkTurn [] None; mkTurn [] (Some "etcdserver: request timed out")] |}
    = Serving r' w' /\
    kvs (store w') !! model.FullGateNodePath (NodeName gate_1) = None.
Proof.
  destruct (SubMain_serves_unregistered (3 * Second) "" "uuid" gate_1 etcd.empty
              (mkTurn [] None) (mkTurn [] (Some "etcdserver: request timed out"))
              [] "etcdserver: request timed out") as [r' H];
    [discriminate | reflexivity | reflexivity |].
  eexists r', _. split; [exact H|]. reflexivity.
Defined.

(** A missing address, on the other hand, does take the process down. *)
Lemma SubMain_aborts_without_address (RuntimeKeepalive : Z) (uuid : string)
    (r : Gate) (e : Etcd) :
  ServerAddr r = "" -> AutoFindAddr r = false ->
  SubMain RuntimeKeepalive "" uuid r (quiet e) =
  Aborted "The service startup address is empty, please set -s ip:port".
Proof.
  intros Hs Ha. unfold SubMain.
  pose proof (init_addr RuntimeKeepalive uuid r (quiet e)) as [Hs' Ha'].
  pose proof (init_quiet RuntimeKeepalive uuid r e) as [He Hw].
  destruct (init RuntimeKeepalive uuid r (quiet e)) as [[r' err] w'].
  cbn [fst snd] in *. subst err w'.
  unfold registerGateNode, getAddress. rewrite Hs', Ha', Hs, Ha. reflexivity.
Qed.

(** And so does a failure of init. *)
Lemma SubMain_aborts_when_init_fails (RuntimeKeepalive : Z) (GetUnusedAddr uuid : string)
    (r : Gate) (e : Etcd) (t : Turn) (rest : list Turn) (err : string) :
  fault t = Some err ->
  SubMain RuntimeKeepalive GetUnusedAddr uuid r {| store := e; script := t :: rest |} =
  Aborted err.
Proof.
  intros Hf. unfold SubMain, init, read. by rewrite call_cons, Hf.
Qed.

(** ** stopTask *)

(** C6.  stopTask has an empty body: it answers nothing and leaves the
    world as it found it, so no record is deleted, but no action is set and
    nothing is sent to a worker either. *)
Theorem stopTask_does_nothing (c : Context) (w : World) :
  stopTask c w = (Silent, w).
Proof. reflexivity. Qed.

(** ** Worker sessions *)

Lemma put_at_lookup rev lease (m : gmap string KeyValue) key val :
  exists kv, put_at rev lease m key val !! key = Some kv /\
    Value kv = val /\ Lease kv = lease /\ ModRevision kv = rev.
Proof. unfold put_at. destruct (m !! key); rewrite lookup_insert_eq; eauto. Qed.

Lemma put_at_lookup_ne rev lease (m : gmap string KeyValue) key val key' :
  key <> key' -> put_at rev lease m key val !! key' = m !! key'.
Proof. intros H. unfold put_at. destruct (m !! key); by rewrite lookup_insert_ne. Qed.

(** C4.  On the first message of a session the routine does create a
    lease-backed node key, but under the name of the gate and with the
    address of the gate: the name the worker sent is not used, and the
    runtime-node path of the worker is left as it was. *)
Theorem runtime_registered_under_gate_name (r : Gate) (name : string) (e : Etcd) :
  name <> NodeName r ->
  let s := run r [TheHandler; TheRoutine; TheRoutine]
             (stream (Ok tt) [Ok (model.mkWhoami name)] (quiet e)) in
  routine s = Waiting (next_lease e) /\
  (exists kv,
     kvs (store (world s)) !! model.FullRuntimeNodePath (NodeName r) = Some kv /\
     Value kv = ServerAddr r /\ Lease kv = next_lease e) /\
  kvs (store (world s)) !! model.FullRuntimeNodePath name =
    kvs e !! model.FullRuntimeNodePath name.
Proof.
  intros Hne s. subst s. cbn [run step stream step_handler handler inbox].
  cbn [step_routine routine world]. rewrite call_quiet.
  cbn [Grant fst snd step_routine routine world].
  rewrite write_quiet. cbn [routine world store quiet].
  split; [done|]. unfold Put. cbn [kvs with_kvs]. split.
  - destruct (put_at_lookup (revision e + 1) (next_lease e) (kvs e)
      (model.FullRuntimeNodePath (NodeName r)) (ServerAddr r)) as (kv & H & Hv & Hl & _).
    exists kv. done.
  - apply put_at_lookup_ne. intros H. apply FullRuntimeNodePath_inj in H. congruence.
Qed.

Lemma runtime_registered_under_gate_name_witness :
  let s := run gate_1 [TheHandler; TheRoutine; TheRoutine]
             (stream (Ok tt) [Ok (model.mkWhoami "worker-1")] (quiet etcd.empty)) in
  Value <$> kvs (store (world s)) !! "/scheduler/runtime/node/gate-g1" = Some "10.0.0.1:8080" /\
  kvs (store (world s)) !! "/scheduler/runtime/node/worker-1" = None.
Proof.
  destruct (runtime_registered_under_gate_name gate_1 "worker-1" etcd.empty)
    as (_ & (kv & Hk & Hv & _) & Hw); [discriminate|].
  cbn zeta. split.
  - change "/scheduler/runtime/node/gate-g1" with (model.FullRuntimeNodePath (NodeName gate_1)).
    rewrite Hk. simpl. by rewrite Hv.
  - change "/scheduler/runtime/node/worker-1" with (model.FullRuntimeNodePath "worker-1").
    rewrite Hw. reflexivity.
Defined.

(** ** Keys in byte order *)

Lemma Ascii_compare_refl a : Ascii.compare a a = Eq.
Proof. unfold Ascii.compare. apply N.compare_refl. Qed.

Lemma Ascii_compare_zero c : Ascii.compare (Ascii.ascii_of_N 0) c <> Gt.
Proof.
  unfold Ascii.compare. change (Ascii.N_of_ascii (Ascii.ascii_of_N 0)) with 0%N.
  destruct (Ascii.N_of_ascii c); simpl; discriminate.
Qed.

Lemma String_le_cons a x c y :
  String.le (String a x) (String c y) <->
  Ascii.compare a c = Lt \/ (a = c /\ String.le x y).
Proof.
  unfold String.le, String.leb. simpl.
  destruct (Ascii.compare a c) eqn:H.
  - apply Ascii.compare_eq_iff in H. subst. split; [by right|]. by intros [?|[_ ?]].
  - split; [by left|done].
  - split; [done|]. intros [?|[-> _]]; [done|]. by rewrite Ascii_compare_refl in H.
Qed.

Lemma String_le_nil y : String.le "" y.
Proof. by destruct y. Qed.

Lemma String_le_cons_nil a x : ~ String.le (String a x) "".
Proof. unfold String.le, String.leb. simpl. auto. Qed.

(** [x +:+ zero_byte] is the least key above [x]. *)
Lemma String_le_succ x y :
  String.le (x +:+ zero_byte) y <-> String.le x y /\ x <> y.
Proof.
  revert y. induction x as [|a x IH]; intros [|c y]; simpl.
  - split; [intros H; by apply String_le_cons_nil in H|]. by intros [_ ?].
  - split; [by intros _|]. intros _. apply String_le_cons.
    destruct (Ascii.compare (Ascii.ascii_of_N 0) c) eqn:H.
    + right. apply Ascii.compare_eq_iff in H. split; [done|]. apply String_le_nil.
    + by left.
    + by apply Ascii_compare_zero in H.
  - split; [intros H; by apply String_le_cons_nil in H|].
    intros [H _]. by apply String_le_cons_nil in H.
  - change (String a x +:+ zero_byte) with (String a (x +:+ zero_byte)).
    rewrite !String_le_cons, IH. split.
    + intros [H|[-> [H1 H2]]].
      * split; [by left|]. intros [= -> _]. by rewrite Ascii_compare_refl in H.
      * split; [by right|]. congruence.
    + intros [[H|[-> H]] Hne]; [by left|]. right. split; [done|]. split; [done|]. congruence.
Qed.

Lemma String_prefix_le p k : String.prefix p k = true -> String.le p k.
Proof.
  revert k. induction p as [|a p IH]; intros [|c k]; simpl; try done.
  destruct (Ascii.ascii_dec a c) as [->|]; [|done].
  intros H. apply String_le_cons. right. auto.
Qed.

(** A key between a prefix and an extension of the prefix has the prefix. *)
Lemma String_between_prefix p s k :
  String.le p k -> ~ String.le (p +:+ s) k -> String.prefix p k = true.
Proof.
  revert k. induction p as [|a p IH]; intros k; [by destruct k|].
  destruct k as [|c k].
  { intros H. by apply String_le_cons_nil in H. }
  change (String a p +:+ s) with (String a (p +:+ s)).
  rewrite !String_le_cons. simpl. intros [H|[-> H]] Hn.
  - destruct Hn. by left.
  - destruct (Ascii.ascii_dec c c); [|done]. apply IH; [done|]. intros H'. apply Hn. by right.
Qed.

Lemma String_le_app_r x s : String.le x (x +:+ s).
Proof.
  apply String_prefix_le. induction x as [|a x IH]; simpl; [by destruct s|].
  by destruct (Ascii.ascii_dec a a).
Qed.

Lemma succ_not_empty x : x +:+ zero_byte <> "".
Proof. by destruct x. Qed.

(** ** Range reads *)

Lemma filter_none {A} (P : A -> Prop) `{forall x, Decision (P x)} (l : list A) :
  (forall x, x ∈ l -> ~ P x) -> filter P l = [].
Proof.
  induction l as [|x l IH]; [done|]. intros Hl. rewrite filter_cons.
  destruct (decide (P x)) as [HP|_].
  - destruct (Hl x); [left|done].
  - apply IH. intros y Hy. apply Hl. by right.
Qed.

Lemma filter_all {A} (P : A -> Prop) `{forall x, Decision (P x)} (l : list A) :
  (forall x, x ∈ l -> P x) -> filter P l = l.
Proof.
  induction l as [|x l IH]; [done|]. intros Hl. rewrite filter_cons.
  destruct (decide (P x)) as [_|HP].
  - f_equal. apply IH. intros y Hy. apply Hl. by right.
  - destruct HP. apply Hl. left.
Qed.

Lemma StronglySorted_filter {A} (R : relation A) (P : A -> Prop)
    `{forall x, Decision (P x)} (l : list A) :
  StronglySorted R l -> StronglySorted R (filter P l).
Proof.
  induction 1 as [|x l Hl IH Hx]; [constructor|].
  rewrite filter_cons. destruct (decide (P x)); [|done].
  constructor; [done|]. apply Forall_forall. intros y [_ Hy]%list_elem_of_filter.
  rewrite Forall_forall in Hx. auto.
Qed.

Lemma range_asc_perm start end_ e :
  range_asc start end_ e ≡ₚ
  filter (fun kv => in_range start end_ kv.1 = true) (map_to_list (kvs e)).
Proof. apply merge_sort_Permutation. Qed.

Lemma range_asc_sorted start end_ e : StronglySorted key_le (range_asc start end_ e).
Proof. apply StronglySorted_merge_sort; apply _. Qed.

Lemma range_asc_elem start end_ e kv :
  kv ∈ range_asc start end_ e <-> stored e kv /\ in_range start end_ kv.1 = true.
Proof.
  rewrite range_asc_perm, list_elem_of_filter, elem_of_map_to_list'. unfold stored. tauto.
Qed.

Lemma range_asc_NoDup start end_ e : NoDup (range_asc start end_ e).*1.
Proof.
  rewrite range_asc_perm.
  eapply sublist_NoDup; [apply (NoDup_fst_map_to_list (kvs e))|].
  apply fmap_sublist, sublist_filter.
Qed.

Lemma in_range_from start start' end_ key :
  String.le start start' ->
  in_range start' end_ key = true <->
  String.le start' key /\ in_range start end_ key = true.
Proof.
  intros Hs. unfold in_range. rewrite !andb_true_iff, !bool_decide_eq_true.
  split; [|tauto]. intros [H1 H2]. repeat split; try done. by etrans.
Qed.

(** A range read from a later start key is the tail of the range read from
    an earlier one. *)
Lemma range_asc_from start start' end_ e :
  String.le start start' ->
  range_asc start' end_ e =
  filter (fun kv => String.le start' kv.1) (range_asc start end_ e).
Proof.
  intros Hs. apply (StronglySorted_unique_strong key_le).
  - intros x1 x2 [H1 _]%range_asc_elem [_ [H2 _]%range_asc_elem]%list_elem_of_filter Ha Hb.
    unfold key_le in *. assert (x1.1 = x2.1) as Hk by (by apply (anti_symm String.le)).
    unfold stored in *. rewrite Hk in H1. destruct x1, x2; simpl in *. congruence.
  - apply range_asc_sorted.
  - apply StronglySorted_filter, range_asc_sorted.
  - rewrite !range_asc_perm, list_filter_filter.
    apply reflexive_eq, list_filter_iff. intros kv. rewrite (in_range_from start); tauto.
Qed.

(** Cutting a key-sorted list right after one of its entries: what lies at
    or after the successor of that entry's key is what follows it. *)
Lemma filter_after_last (xs ys : list (string * KeyValue)) kv :
  StronglySorted key_le (xs ++ ys) -> NoDup (xs ++ ys).*1 ->
  last xs = Some kv ->
  filter (fun x => String.le (kv.1 +:+ zero_byte) x.1) (xs ++ ys) = ys.
Proof.
  intros Hsort Hnd [xs' ->]%last_Some.
  rewrite <- (app_assoc xs' [kv] ys) in *.
  apply StronglySorted_app in Hsort as (H12 & _ & Hs2).
  rewrite fmap_app in Hnd. apply NoDup_app in Hnd as (_ & Hd12 & Hd2).
  rewrite filter_app.
  rewrite (filter_none _ xs'), app_nil_l.
  2:{ intros x Hx [Hle Hne]%String_le_succ. apply Hne.
      apply (anti_symm String.le); [done|].
      apply (H12 x kv); [done|]. left. }
  simpl in Hs2, Hd2. apply StronglySorted_inv in Hs2 as [_ Hkv].
  apply NoDup_cons in Hd2 as [Hnotin _].
  change ([kv] ++ ys) with (kv :: ys).
  rewrite filter_cons. destruct (decide _) as [[_ Hne]%String_le_succ|_]; [done|].
  apply filter_all. intros y Hy. apply String_le_succ. split.
  - rewrite Forall_forall in Hkv. by apply Hkv.
  - intros Heq. apply Hnotin. rewrite Heq. by apply list_elem_of_fmap_2.
Qed.

Lemma limited_split {A} (limit : Z) (l : list A) :
  exists rest, l = limited limit l ++ rest /\ (limited limit l = [] -> l = []).
Proof.
  unfold limited. destruct (0 <? limit) eqn:Hl.
  - exists (drop (Z.to_nat limit) l). split; [by rewrite take_drop|].
    apply Z.ltb_lt in Hl. destruct l; [done|].
    destruct (Z.to_nat limit) eqn:Hn; [lia|done].
  - exists []. by rewrite app_nil_r.
Qed.

Lemma limited_length {A} (limit : Z) (l : list A) :
  0 < limit <= Z.of_nat (length l) -> Z.of_nat (length (limited limit l)) = limit.
Proof.
  intros [H1 H2]. unfold limited. rewrite (proj2 (Z.ltb_lt _ _) H1).
  rewrite length_take. lia.
Qed.

(** Under the state prefix, and below the end key of the listing, is the
    same as in the range of the listing. *)
Lemma in_range_prefix key :
  in_range model.GlobalTaskPrefixState endGlobalTaskKey key = true <->
  String.prefix model.GlobalTaskPrefixState key = true /\
  ~ String.le endGlobalTaskKey key.
Proof.
  unfold in_range. rewrite andb_true_iff, negb_true_iff, bool_decide_eq_true,
    bool_decide_eq_false. split.
  - intros [H1 H2]. split; [|done]. by apply (String_between_prefix _ _ _ H1 H2).
  - intros [H1 H2]. split; [|done]. by apply String_prefix_le.
Qed.

(** ** The status listing *)

Section Status.
Variable ValueToState : string -> Result model.State.

Lemma decodes_decodable kv : decodes ValueToState kv -> decodable ValueToState kv.
Proof. intros (s & Hs & _). by exists s. Qed.

Lemma render_cons kv l s :
  ValueToState (Value kv.2) = Ok s ->
  render ValueToState (kv :: l) = copy_state s :: render ValueToState l.
Proof. intros Hs. unfold render. simpl. unfold render_one at 1. by rewrite Hs. Qed.

Lemma render_app l1 l2 :
  render ValueToState (l1 ++ l2) = render ValueToState l1 ++ render ValueToState l2.
Proof. apply omap_app. Qed.

Lemma render_length l :
  Forall (decodable ValueToState) l -> length (render ValueToState l) = length l.
Proof.
  induction 1 as [|kv l [s Hs] _ IH]; [done|].
  rewrite (render_cons _ _ _ Hs). simpl. by rewrite IH.
Qed.

Lemma render_keys l :
  Forall (decodes ValueToState) l -> item_key <$> render ValueToState l = l.*1.
Proof.
  induction 1 as [|kv l (s & Hs & Hk) _ IH]; [done|].
  rewrite (render_cons _ _ _ Hs). cbn [fmap list_fmap]. f_equal; [|done].
  by rewrite <- Hk.
Qed.

Lemma render_last l :
  Forall (decodes ValueToState) l ->
  match last (render ValueToState l) with
  | None => l = []
  | Some it => exists kv, last l = Some kv /\ item_key it = kv.1
  end.
Proof.
  intros Hl. pose proof (render_keys l Hl) as Hk.
  assert (Hlast : item_key <$> last (render ValueToState l) = fst <$> last l)
    by (by rewrite <- !fmap_last, Hk).
  destruct (last (render ValueToState l)) as [it|], (last l) as [kv|] eqn:Hl';
    simplify_eq/=.
  - eauto.
  - by apply last_None.
Qed.

(** The loop of the handler on an undisturbed store, for a format other
    than the table: one item per entry, in order. *)
Lemma status_loop_json p l data items e :
  model.Format p <> "table" ->
  Forall (decodable ValueToState) l ->
  status_loop ValueToState p l data items (quiet e) =
  (inr (data, items ++ render ValueToState l), quiet e).
Proof.
  intros Hf Hl. revert data items.
  induction Hl as [|kv l [s Hs] _ IH]; intros data items.
  { simpl. by rewrite app_nil_r. }
  cbn [status_loop]. rewrite Hs.
  assert (Hlook : exists ip,
    (if (0 <? String.length (model.RuntimeNode s))%nat
     then match read (Get (model.RuntimeNode s)) (quiet e) with
          | (Err err, w) => (Err err, w)
          | (Ok resp, w) =>
              (Ok match Kvs resp with kv0 :: _ => Value kv0.2 | [] => "" end, w)
          end
     else (Ok "", quiet e)) = (Ok ip, quiet e)).
  { destruct (0 <? _)%nat; [|by eexists]. rewrite read_quiet. by eexists. }
  destruct Hlook as [ip ->].
  rewrite (bool_decide_eq_false_2 _ Hf), IH, (render_cons _ _ _ Hs).
  by rewrite <- app_assoc.
Qed.

(** The json reply on an undisturbed store. *)
Lemma status_json p e :
  model.Format p = "json" ->
  Forall (decodable ValueToState)
    (Kvs (GetRange (status_startKey p) endGlobalTaskKey
            (status_sortOrder p) (status_limit p) e)) ->
  status ValueToState (get p) (quiet e) =
  (Replied (JSONStatus 200
     {| Total := Count (GetCountPrefix model.GlobalTaskPrefixState e);
        Items := render ValueToState
                   (Kvs (GetRange (status_startKey p) endGlobalTaskKey
                           (status_sortOrder p) (status_limit p) e));
        StartKey := status_startKey p |}), quiet e).
Proof.
  intros Hf Hl. unfold status. cbn [get ShouldBindQuery].
  rewrite !read_quiet, status_loop_json; [|by rewrite Hf|done].
  rewrite Hf. reflexivity.
Qed.

(** The loop and the json reply in a world where no call fails: the items
    are those of the page the range read returned, the total is the count
    of the second read, taken on the store as it is by then. *)
Lemma status_loop_calm p l data items w :
  model.Format p <> "table" ->
  Forall (decodable ValueToState) l -> calm w ->
  exists w', status_loop ValueToState p l data items w =
             (inr (data, items ++ render ValueToState l), w').
Proof.
  intros Hf Hl. revert data items w.
  induction Hl as [|kv l [s Hs] _ IH]; intros data items w Hw.
  { exists w. simpl. by rewrite app_nil_r. }
  cbn [status_loop]. rewrite Hs, (render_cons _ _ _ Hs).
  destruct (0 <? String.length (model.RuntimeNode s))%nat.
  - destruct (read_calm (Get (model.RuntimeNode s)) w Hw) as [-> Hw1].
    rewrite (bool_decide_eq_false_2 _ Hf).
    destruct (IH data (items ++ [copy_state s]) _ Hw1) as [w' ->].
    exists w'. by rewrite <- app_assoc.
  - rewrite (bool_decide_eq_false_2 _ Hf).
    destruct (IH data (items ++ [copy_state s]) w Hw) as [w' ->].
    exists w'. by rewrite <- app_assoc.
Qed.

Lemma status_json_calm p w :
  model.Format p = "json" -> calm w ->
  Forall (decodable ValueToState) (served_page p (bystanders 1 w)) ->
  exists w',
    status ValueToState (get p) w =
    (Replied (JSONStatus 200
       {| Total := Count (GetCountPrefix model.GlobalTaskPrefixState (bystanders 2 w));
          Items := render ValueToState (served_page p (bystanders 1 w));
          StartKey := status_startKey p |}), w').
Proof.
  intros Hf Hw Hl. unfold status. cbn [get ShouldBindQuery].
  destruct (read_calm (GetRange (status_startKey p) endGlobalTaskKey
                         (status_sortOrder p) (status_limit p)) w Hw) as [-> Hw1].
  destruct (read_calm (GetCountPrefix model.GlobalTaskPrefixState) _ Hw1) as [-> Hw2].
  assert (Hf' : model.Format p <> "table") by (by rewrite Hf).
  destruct (status_loop_calm p _ [] [] _ Hf' Hl Hw2) as [w' Hloop].
  unfold served_page in *. rewrite Hloop, Hf. exists w'.
  by rewrite <- (bystanders_after 1 w).
Qed.

(** The loop ends early only with a {code, message} reply. *)
Lemma status_loop_early p l data items w out w' :
  status_loop ValueToState p l data items w = (inl out, w') ->
  exists msg, out = error2 500 msg.
Proof.
  revert data items w. induction l as [|kv l IH]; intros data items w; [done|].
  cbn [status_loop]. destruct (ValueToState (Value kv.2)) as [s|err].
  2:{ intros [= <- _]. by eexists. }
  destruct (if (0 <? String.length (model.RuntimeNode s))%nat then _ else _)
    as [[ip|err] w1].
  2:{ intros [= <- _]. by eexists. }
  destruct (bool_decide (model.Format p = "table")); apply IH.
Qed.

(** The start key a json reply carries is the start key its own page was
    read from. *)
Lemma status_echoes_startKey q w st data w' :
  status ValueToState (get q) w = (Replied (JSONStatus st data), w') ->
  StartKey data = status_startKey q.
Proof.
  unfold status. cbn [get ShouldBindQuery].
  destruct (read (GetRange _ _ _ _) w) as [[resp|err] w1]; [|done].
  destruct (read (GetCountPrefix _) w1) as [[resp2|err] w2]; [|done].
  destruct (status_loop _ _ _ _ _ _) as [[out|[data' items]] w3] eqn:Hloop.
  { apply status_loop_early in Hloop as [msg ->]. done. }
  destruct (bool_decide (model.Format q = "table")); [done|].
  destruct (bool_decide (model.Format q = "json")); [|done].
  by intros [= _ <- _].
Qed.

(** Paging by the successor of the last key shown, from any point of the
    listing: the pages make up what remains of it. *)
Lemma browse_from e n p xs ys :
  consistent ValueToState e ->
  model.ID p = "" -> model.Format p = "json" ->
  String.prefix "-" (model.Sort p) = false ->
  String.le model.GlobalTaskPrefixState (status_startKey p) ->
  range_asc (status_startKey p) endGlobalTaskKey e = ys ->
  range_asc model.GlobalTaskPrefixState endGlobalTaskKey e = xs ++ ys ->
  (length ys < n)%nat ->
  browse ValueToState n p e = render ValueToState ys.
Proof.
  intros Hcons. revert p xs ys.
  induction n as [|n IH]; intros p xs ys Hid Hf Hsort Hstart Hys Hall Hn; [lia|].
  assert (Hdec : Forall (decodes ValueToState) ys).
  { apply Forall_forall. intros kv Hkv.
    assert (kv ∈ range_asc model.GlobalTaskPrefixState endGlobalTaskKey e) as Hin
      by (rewrite Hall, elem_of_app; by right).
    apply range_asc_elem in Hin as [??]. by apply Hcons. }
  destruct (limited_split (status_limit p) ys) as (rest & Hsplit & Hemp).
  set (page := limited (status_limit p) ys) in *.
  assert (Hpage : Kvs (GetRange (status_startKey p) endGlobalTaskKey
                         (status_sortOrder p) (status_limit p) e) = page).
  { unfold GetRange, status_sortOrder. rewrite Hsort. cbn [Kvs]. by rewrite Hys. }
  assert (Hdp : Forall (decodes ValueToState) page).
  { rewrite Hsplit in Hdec. by apply Forall_app in Hdec as [? _]. }
  cbn [browse]. rewrite status_json; [|done|].
  2:{ rewrite Hpage. eapply Forall_impl; [exact Hdp|]. apply decodes_decodable. }
  cbn [fst Items]. rewrite Hpage.
  unfold next_query. pose proof (render_last page Hdp) as Hlast.
  destruct (last (render ValueToState page)) as [it|].
  - destruct Hlast as (kv & Hlast & Hk).
    replace (render ValueToState ys)
      with (render ValueToState page ++ render ValueToState rest)
      by (by rewrite <- render_app, <- Hsplit).
    f_equal.
    assert (Hin : kv ∈ range_asc model.GlobalTaskPrefixState endGlobalTaskKey e).
    { rewrite Hall, Hsplit. apply elem_of_app. right. apply elem_of_app. left.
      by apply last_Some_elem_of. }
    apply range_asc_elem in Hin as [_ [Hlo _]%andb_true_iff].
    apply bool_decide_eq_true in Hlo.
    assert (Hstart' : status_startKey (with_StartKey p (item_key it +:+ zero_byte)) =
                      kv.1 +:+ zero_byte).
    { unfold status_startKey. cbn [with_StartKey model.ID model.StartKey].
      rewrite Hid, Hk. rewrite bool_decide_eq_true_2 by done.
      by rewrite (bool_decide_eq_false_2 _ (succ_not_empty _)). }
    apply (IH _ (xs ++ page) rest); try done.
    + rewrite Hstart'. etrans; [exact Hlo|]. apply String_le_app_r.
    + rewrite Hstart'.
      rewrite (range_asc_from model.GlobalTaskPrefixState).
      2:{ etrans; [exact Hlo|]. apply String_le_app_r. }
      rewrite Hall, Hsplit, app_assoc.
      apply filter_after_last.
      * rewrite <- app_assoc, <- Hsplit, <- Hall. apply range_asc_sorted.
      * rewrite <- app_assoc, <- Hsplit, <- Hall. apply range_asc_NoDup.
      * rewrite last_app, Hlast. done.
    + by rewrite <- app_assoc, <- Hsplit.
    + assert (page <> []) by (intros Hp; by rewrite Hp in Hlast).
      rewrite Hsplit, length_app in Hn. destruct page; [done|]. simpl in Hn. lia.
  - rewrite app_nil_r. rewrite (Hemp Hlast). by rewrite Hlast.
Qed.

End Status.

Lemma consistent_check (ValueToState : string -> Result model.State) (e : Etcd) :
  Forall (decodes ValueToState) (map_to_list (kvs e)) -> consistent ValueToState e.
Proof.
  intros H kv Hkv _. rewrite Forall_forall in H. apply H.
  by apply elem_of_map_to_list'.
Qed.

Lemma range_length_task_states (e : Etcd) :
  Forall (fun kv => ~ String.le endGlobalTaskKey kv.1) (task_states e) ->
  range_asc model.GlobalTaskPrefixState endGlobalTaskKey e ≡ₚ task_states e.
Proof.
  intros Hend. rewrite range_asc_perm. apply reflexive_eq.
  transitivity (filter (fun kv : string * KeyValue => ~ String.le endGlobalTaskKey kv.1)
                  (task_states e)).
  - unfold task_states. rewrite list_filter_filter. apply list_filter_iff.
    intros kv. rewrite in_range_prefix. tauto.
  - apply filter_all. by apply Forall_forall.
Qed.

(** C3, as amended.  A json reply carries the start key its own page was
    read from.  On an undisturbed store whose state records are
    consistent, a client that asks in ascending order and starts every
    next request right after the key of the last item it was shown gets,
    page after page, the full key-ordered sequence of the records in the
    range of the listing: in key order, every record once. *)
Theorem status_pages_by_successor (ValueToState : string -> Result model.State)
    (e : Etcd) (p : model.StatusRequest) :
  consistent ValueToState e ->
  model.ID p = "" -> model.StartKey p = "" -> model.Format p = "json" ->
  String.prefix "-" (model.Sort p) = false ->
  let all := range_asc model.GlobalTaskPrefixState endGlobalTaskKey e in
  let shown := browse ValueToState (S (length all)) p e in
  (forall q w st data w',
     status ValueToState (get q) w = (Replied (JSONStatus st data), w') ->
     StartKey data = status_startKey q) /\
  shown = render ValueToState all /\
  item_key <$> shown = all.*1 /\
  length shown = length all /\
  StronglySorted String.le (item_key <$> shown) /\
  NoDup (item_key <$> shown) /\
  (forall kv, stored e kv ->
     in_range model.GlobalTaskPrefixState endGlobalTaskKey kv.1 = true ->
     kv.1 ∈ item_key <$> shown).
Proof.
  intros Hcons Hid Hsk Hf Hsort all shown.
  assert (Hstart : status_startKey p = model.GlobalTaskPrefixState).
  { unfold status_startKey. rewrite Hsk. by rewrite andb_false_r. }
  assert (Hshown : shown = render ValueToState all).
  { apply (browse_from ValueToState e _ p [] all); try done.
    - by rewrite Hstart.
    - by rewrite Hstart.
    - lia. }
  assert (Hdec : Forall (decodes ValueToState) all).
  { apply Forall_forall. intros kv [??]%range_asc_elem. by apply Hcons. }
  assert (Hkeys : item_key <$> shown = all.*1)
    by (rewrite Hshown; by apply render_keys).
  split; [apply status_echoes_startKey|].
  split; [done|]. split; [done|]. split.
  { rewrite Hshown. apply render_length.
    eapply Forall_impl; [exact Hdec|]. apply decodes_decodable. }
  rewrite Hkeys. split; [|split].
  - apply (StronglySorted_fmap fst key_le String.le); [|apply range_asc_sorted].
    by intros x y.
  - apply range_asc_NoDup.
  - intros kv Hkv Hin. apply list_elem_of_fmap_2. by apply range_asc_elem.
Qed.

Lemma status_pages_by_successor_witness :
  rTaskName <$> browse decode_name 6 (query 2) five_tasks = ["a"; "b"; "c"; "d"; "e"] /\
  item_key <$> browse decode_name
      (S (length (range_asc model.GlobalTaskPrefixState endGlobalTaskKey five_tasks)))
      (query 2) five_tasks =
    (range_asc model.GlobalTaskPrefixState endGlobalTaskKey five_tasks).*1.
Proof.
  split; [by vm_compute|].
  assert (Hc : consistent decode_name five_tasks).
  { apply consistent_check.
    assert (Hk : Forall (fun kv : string * KeyValue =>
                           model.FullGlobalTaskStatePath (Value kv.2) = kv.1)
                        (map_to_list (kvs five_tasks)))
      by (apply (bool_decide_unpack _); by vm_compute).
    eapply Forall_impl; [exact Hk|]. intros kv Hkv. by eexists. }
  by destruct (status_pages_by_successor decode_name five_tasks (query 2) Hc
              eq_refl eq_refl eq_refl eq_refl) as (_ & _ & Hk & _).
Defined.

(** Following the start key of the replies on the two records "a" and "b",
    one item a page: every request is served the first page again. *)
Lemma follow_two_tasks (n : nat) :
  rTaskName <$> follow decode_name n
    (with_StartKey (query 1) model.GlobalTaskPrefixState) two_tasks = replicate n "a".
Proof.
  induction n as [|n IH]; [done|].
  cbn [follow].
  assert (Hs : (status decode_name
             (get (with_StartKey (query 1) model.GlobalTaskPrefixState))
             (quiet two_tasks)).1 =
          Replied (JSONStatus 200
            {| Total := 2; Items := [copy_state
                 {| model.TaskID := "a"; model.StateTaskName := "a";
                    model.StateState := model.CanRun; model.Action := "";
                    model.RuntimeNode := ""; model.InRuntime := false;
                    model.CreateTime := ""; model.UpdateTime := "" |}];
               StartKey := model.GlobalTaskPrefixState |})) by (by vm_compute).
  rewrite Hs. cbn [Items StartKey].
  change (with_StartKey (with_StartKey (query 1) model.GlobalTaskPrefixState)
            model.GlobalTaskPrefixState)
    with (with_StartKey (query 1) model.GlobalTaskPrefixState).
  rewrite fmap_app, IH. reflexivity.
Qed.

(** C3, as stated, fails: with the records "a" and "b" and one item a
    page, no number of requests that each start from the start key of the
    previous reply shows the two records; the first page comes back every
    time. *)
Lemma status_returned_startKey_repeats :
  ~ (forall (ValueToState : string -> Result model.State) (e : Etcd)
            (p : model.StatusRequest),
       consistent ValueToState e ->
       model.ID p = "" -> model.StartKey p = "" -> model.Format p = "json" ->
       String.prefix "-" (model.Sort p) = false ->
       exists n, follow ValueToState n p e =
                 render ValueToState
                   (range_asc model.GlobalTaskPrefixState endGlobalTaskKey e)).
Proof.
  intros H.
  destruct (H decode_name two_tasks (query 1)) as [n Hn]; try reflexivity.
  { apply consistent_check.
    assert (Hk : Forall (fun kv : string * KeyValue =>
                           model.FullGlobalTaskStatePath (Value kv.2) = kv.1)
                        (map_to_list (kvs two_tasks)))
      by (apply (bool_decide_unpack _); by vm_compute).
    eapply Forall_impl; [exact Hk|]. intros kv Hkv. by eexists. }
  apply (f_equal (fmap rTaskName)) in Hn.
  assert (Hall : rTaskName <$> render decode_name
            (range_asc model.GlobalTaskPrefixState endGlobalTaskKey two_tasks)
          = ["a"; "b"]) by (by vm_compute).
  rewrite Hall in Hn. clear Hall H. destruct n as [|n]; [discriminate Hn|].
  cbn [follow] in Hn.
  assert (Hs : (status decode_name (get (query 1)) (quiet two_tasks)).1 =
          Replied (JSONStatus 200
            {| Total := 2; Items := [copy_state
                 {| model.TaskID := "a"; model.StateTaskName := "a";
                    model.StateState := model.CanRun; model.Action := "";
                    model.RuntimeNode := ""; model.InRuntime := false;
                    model.CreateTime := ""; model.UpdateTime := "" |}];
               StartKey := model.GlobalTaskPrefixState |})) by (by vm_compute).
  rewrite Hs in Hn. cbn [Items StartKey] in Hn.
  rewrite fmap_app, follow_two_tasks in Hn.
  destruct n as [|[|n]]; discriminate Hn.
Qed.

Lemma limited_min {A} (limit : Z) (l : list A) :
  0 < limit ->
  Z.of_nat (length (limited limit l)) = Z.min limit (Z.of_nat (length l)).
Proof.
  intros H. unfold limited. rewrite (proj2 (Z.ltb_lt _ _) H), length_take. lia.
Qed.

(** C9, as stated, fails: over the five records a to e, a query with limit
    2 that starts at the key of e is answered with one item, not two. *)
Lemma status_short_page_from_late_start :
  ~ (forall (ValueToState : string -> Result model.State) (e : Etcd)
            (p : model.StatusRequest),
       model.Format p = "json" ->
       Forall (fun kv => decodable ValueToState kv /\ ~ String.le endGlobalTaskKey kv.1)
              (task_states e) ->
       0 < model.Limit p <= Z.of_nat (length (task_states e)) ->
       exists data,
         (status ValueToState (get p) (quiet e)).1 = Replied (JSONStatus 200 data) /\
         Z.of_nat (length (Items data)) = model.Limit p /\
         Total data = Z.of_nat (length (task_states e))).
Proof.
  intros H.
  destruct (H decode_name five_tasks late_query) as (data & Hs & Hl & _).
  - reflexivity.
  - assert (Hk : Forall (fun kv : string * KeyValue =>
                           bool_decide (String.le endGlobalTaskKey kv.1) = false)
                        (task_states five_tasks))
      by (apply (bool_decide_unpack _); by vm_compute).
    eapply Forall_impl; [exact Hk|]. intros kv Hkv. split; [by eexists|].
    by apply bool_decide_eq_false in Hkv.
  - by vm_compute.
  - clear H. vm_compute in Hs. injection Hs as <-. vm_compute in Hl. discriminate Hl.
Qed.

(** C9, as amended.  For every json status query in a world where no call
    fails and the records from the start key on parse: a limit of zero (or
    none) is served as 10; with M records between the start key of the
    query and the end of the listing, the reply holds min(L, M) items for
    the limit L that is served, so exactly L items when L <= M; M is the
    number N of task state records when the query gives an id or no start
    key (and no record lies beyond the end key of the listing), and the
    number of records from the given start key on otherwise; the total is
    the number of task state records, whatever the start key and the
    limit, and it is the count of a second, count-only read over the state
    prefix, taken on the store as it is at that read. *)
Theorem status_page_counts (ValueToState : string -> Result model.State)
    (w : World) (p : model.StatusRequest) :
  model.Format p = "json" ->
  calm w ->
  Forall (decodable ValueToState) (remaining p (bystanders 1 w)) ->
  exists data w',
    status ValueToState (get p) w = (Replied (JSONStatus 200 data), w') /\
    (model.Limit p = 0 ->
       Z.of_nat (length (Items data)) =
       Z.min 10 (Z.of_nat (length (remaining p (bystanders 1 w))))) /\
    (0 < model.Limit p ->
       Z.of_nat (length (Items data)) =
       Z.min (model.Limit p) (Z.of_nat (length (remaining p (bystanders 1 w))))) /\
    (model.ID p <> "" \/ model.StartKey p = "" ->
       Forall (fun kv => ~ String.le endGlobalTaskKey kv.1)
              (task_states (bystanders 1 w)) ->
       length (remaining p (bystanders 1 w)) = length (task_states (bystanders 1 w))) /\
    (model.ID p = "" -> model.StartKey p <> "" ->
       remaining p (bystanders 1 w) =
       range_asc (model.StartKey p) endGlobalTaskKey (bystanders 1 w)) /\
    Total data = Z.of_nat (length (task_states (bystanders 2 w))) /\
    Total data = Count (GetCountPrefix model.GlobalTaskPrefixState (bystanders 2 w)).
Proof.
  intros Hf Hw Hrec.
  set (e1 := bystanders 1 w) in *.
  set (sorted := match status_sortOrder p with
                 | SortAscend => remaining p e1
                 | SortDescend => reverse (remaining p e1)
                 end).
  assert (Hlen : length sorted = length (remaining p e1)).
  { unfold sorted. destruct (status_sortOrder p); [done|]. apply length_reverse. }
  assert (Hds : Forall (decodable ValueToState) sorted).
  { unfold sorted. destruct (status_sortOrder p); [done|].
    by rewrite reverse_Permutation. }
  assert (Hpage : served_page p e1 = limited (status_limit p) sorted) by reflexivity.
  assert (Hdp : Forall (decodable ValueToState) (served_page p e1)).
  { rewrite Hpage.
    destruct (limited_split (status_limit p) sorted) as (rest & Hsplit & _).
    rewrite Hsplit in Hds. by apply Forall_app in Hds as [? _]. }
  destruct (status_json_calm ValueToState p w Hf Hw Hdp) as [w' Hs].
  eexists _, w'. split; [exact Hs|]. cbn [Items Total]. fold e1.
  rewrite render_length by done. rewrite Hpage.
  split; [|split; [|split; [|split]]].
  - intros H0. unfold status_limit. rewrite H0, <- Hlen. by apply limited_min.
  - intros Hpos. unfold status_limit.
    rewrite (proj2 (Z.eqb_neq _ _)), <- Hlen by lia. by apply limited_min.
  - intros Hstart Hend. rewrite <- (range_length_task_states e1 Hend).
    unfold remaining, status_startKey.
    destruct Hstart as [Hid|Hnone].
    + by rewrite (bool_decide_eq_false_2 _ Hid).
    + rewrite (bool_decide_eq_true_2 _ Hnone). by rewrite andb_false_r.
  - intros Hid Hstart. unfold remaining, status_startKey.
    by rewrite (bool_decide_eq_true_2 _ Hid), (bool_decide_eq_false_2 _ Hstart).
  - done.
Qed.

Lemma status_page_counts_witness :
  exists data w',
    status decode_name (get (query 2)) growing = (Replied (JSONStatus 200 data), w') /\
    length (Items data) = 2%nat /\ Total data = 6.
Proof.
  destruct (status_page_counts decode_name growing (query 2))
    as (data & w' & Hs & _ & Hl & _ & _ & Ht & _).
  - reflexivity.
  - unfold calm, growing. cbn [script]. by repeat constructor.
  - apply Forall_forall. intros kv _. by eexists.
  - exists data, w'. split; [exact Hs|]. split.
    + specialize (Hl eq_refl). change (model.Limit (query 2)) with 2 in Hl.
      replace (Z.of_nat (length (remaining (query 2) (bystanders 1 growing))))
        with 5 in Hl by (by vm_compute).
      lia.
    + rewrite Ht. by vm_compute.
Defined.

(** ** Sessions: the accounts of heartbeats and renewals *)

Lemma renewals_app t l : renewals (t ++ l) = (renewals t + renewals l)%nat.
Proof. unfold renewals. by rewrite List.filter_app, length_app. Qed.

Lemma received_app t l : received (t ++ l) = (received t + received l)%nat.
Proof. unfold received. by rewrite List.filter_app, length_app. Qed.

Lemma renewals_after_end_fresh t l :
  LoopEnded ∉ t -> renewals_after_end (t ++ l) = renewals_after_end l.
Proof.
  induction t as [|ev t IH]; [done|]. intros Hn.
  apply not_elem_of_cons in Hn as [Hne Hn]. simpl.
  destruct ev; try done; by apply IH.
Qed.

Lemma renewals_after_end_snoc t ev :
  (renewals_after_end (t ++ [ev]) <=
   renewals_after_end t + if is_KeepAlive ev then 1 else 0)%nat.
Proof.
  induction t as [|x t IH].
  - destruct ev; simpl; unfold renewals; simpl; lia.
  - destruct x; simpl; try apply IH.
    rewrite renewals_app. unfold renewals at 2. simpl. destruct ev; simpl; lia.
Qed.

Lemma renewals_snoc t ev :
  renewals (t ++ [ev]) = (renewals t + if is_KeepAlive ev then 1 else 0)%nat.
Proof. rewrite renewals_app. unfold renewals at 2. simpl. by destruct (is_KeepAlive ev). Qed.

Lemma received_snoc t ev :
  received (t ++ [ev]) = (received t + if is_Received ev then 1 else 0)%nat.
Proof. rewrite received_app. unfold received at 2. simpl. by destruct (is_Received ev). Qed.

Ltac settle_accounts :=
  rewrite ?received_snoc, ?renewals_snoc; simpl;
  first [ left; by repeat split; first [done | lia | by left | by right]
        | right; by repeat split; first [done | lia] ].

Lemma step_accounted r who s s' :
  accounted s -> step r who s = Some s' -> accounted s'.
Proof.
  intros Hacc Hstep. destruct s as [h ro inb w t]. unfold accounted, in_flight in *.
  simpl in Hacc.
  destruct who; simpl in Hstep.
  - unfold step_handler in Hstep. simpl in Hstep.
    destruct Hacc as [(?&?&?&[?|?])|(?&?&?)];
      destruct h as [[|]| |]; try done;
      repeat case_match; simplify_eq/=; settle_accounts.
  - unfold step_routine in Hstep. simpl in Hstep.
    destruct Hacc as [(?&?&?&?)|(?&?&?)]; destruct ro; simplify_eq/=.
    + destruct (call _ w) as [[id|err] w']; simplify_eq/=; settle_accounts.
    + destruct (write _ w) as [? w']. simplify_eq/=. settle_accounts.
    + destruct (write _ w) as [? w']. simplify_eq/=. settle_accounts.
  - simplify_eq/=. done.
Qed.

Lemma run_accounted r sched s : accounted s -> accounted (run r sched s).
Proof.
  revert s. induction sched as [|who sched IH]; intros s Hs; [done|].
  simpl. destruct (step r who s) as [s'|] eqn:Hstep; [|by apply IH].
  apply IH. by eapply step_accounted.
Qed.

Lemma stream_accounted upgrade frames w : accounted (stream upgrade frames w).
Proof. left. destruct upgrade; simpl; auto. Qed.

Lemma step_ended_once r who s s' :
  ended_once s -> step r who s = Some s' -> ended_once s'.
Proof.
  intros Hinv Hstep. destruct s as [h ro inb w t]. unfold ended_once, renewing in *.
  simpl in Hinv.
  destruct who; simpl in Hstep.
  - unfold step_handler in Hstep. simpl in Hstep.
    destruct h as [[|]| |]; try done; repeat case_match; simplify_eq/=;
      try (rewrite renewals_after_end_fresh by done; simpl; unfold renewals; simpl; lia);
      try (rewrite elem_of_app, list_elem_of_singleton; by intros [?|?]);
      done.
  - unfold step_routine in Hstep. simpl in Hstep.
    destruct ro; simplify_eq/=.
    + destruct (call _ w) as [[id|err] w']; simplify_eq/=; destruct h; simpl in *;
        try (rewrite elem_of_app, list_elem_of_singleton; by intros [?|?]);
        try done.
      pose proof (renewals_after_end_snoc t (NewLease id)). simpl in *. lia.
    + destruct (write _ w) as [? w']. simplify_eq/=. destruct h; simpl in *;
        try (rewrite elem_of_app, list_elem_of_singleton; by intros [?|?]).
      pose proof (renewals_after_end_snoc t
        (PutNode (model.FullRuntimeNodePath (NodeName r)) (ServerAddr r) leaseID)).
      simpl in *. lia.
    + destruct (write _ w) as [? w']. simplify_eq/=. destruct h; simpl in *;
        try (rewrite elem_of_app, list_elem_of_singleton; by intros [?|?]).
      pose proof (renewals_after_end_snoc t (KeepAlive leaseID)). simpl in *. lia.
  - simplify_eq/=. done.
Qed.

Lemma run_ended_once r sched s : ended_once s -> ended_once (run r sched s).
Proof.
  revert s. induction sched as [|who sched IH]; intros s Hs; [done|].
  simpl. destruct (step r who s) as [s'|] eqn:Hstep; [|by apply IH].
  apply IH. by eapply step_ended_once.
Qed.

Lemma stream_ended_once upgrade frames w : ended_once (stream upgrade frames w).
Proof.
  destruct upgrade; unfold ended_once, renewing; simpl.
  - apply not_elem_of_nil.
  - lia.
Qed.

Lemma ended_once_bound s : ended_once s -> (renewals_after_end (trace s) <= 1)%nat.
Proof.
  unfold ended_once. destruct (handler s); [| |lia]; intros H;
    pose proof (renewals_after_end_fresh (trace s) [] H) as Hf;
    rewrite app_nil_r in Hf; rewrite Hf; simpl; lia.
Qed.

(** *** Leases *)

Lemma lease_ok_advance T id dt e : lease_ok T id e -> lease_ok T id (advance dt e).
Proof.
  intros H l. unfold advance. simpl.
  intros [Hl _]%map_lookup_filter_Some. apply H in Hl as [? ?]. split; [done|]. lia.
Qed.

Lemma lease_ok_foreign T id e f : lease_ok T id e -> lease_ok T id (foreign e f).
Proof.
  intros H. destruct f; simpl.
  - exact H.
  - unfold Delete. by destruct (kvs e !! key).
  - by apply lease_ok_advance.
Qed.

Lemma lease_ok_others T id e fs : lease_ok T id e -> lease_ok T id (foldl foreign e fs).
Proof.
  revert e. induction fs as [|f fs IH]; intros e H; [done|].
  simpl. by apply IH, lease_ok_foreign.
Qed.

Lemma lease_ok_call {A} T id (f : Etcd -> A * Etcd) w :
  (forall e, lease_ok T id e -> lease_ok T id (f e).2) ->
  lease_ok T id (store w) -> lease_ok T id (store (call f w).2).
Proof.
  intros Hf H. destruct w as [e sc]. destruct sc as [|t rest].
  - rewrite call_nil. simpl. by apply Hf.
  - rewrite call_cons. simpl in H. destruct (fault t); simpl.
    + by apply lease_ok_others.
    + by apply Hf, lease_ok_others.
Qed.

Lemma lease_ok_Grant T e : lease_ok T (Grant T e).1 (Grant T e).2.
Proof.
  intros l. simpl. rewrite lookup_insert_eq. intros [= <-]. simpl. split; [done|lia].
Qed.

Lemma lease_ok_call_Grant T w id w' :
  call (Grant T) w = (Ok id, w') -> lease_ok T id (store w').
Proof.
  destruct w as [e sc]. destruct sc as [|t rest].
  - rewrite call_nil. intros [= <- <-]. apply lease_ok_Grant.
  - rewrite call_cons. destruct (fault t); [done|]. intros [= <- <-]. apply lease_ok_Grant.
Qed.

Lemma lease_ok_KeepAliveOnce T id e :
  lease_ok T id e -> lease_ok T id (KeepAliveOnce id e).
Proof.
  intros H l. unfold KeepAliveOnce. destruct (leases e !! id) as [l0|] eqn:Hl0.
  - simpl. rewrite lookup_insert_eq. intros [= <-]. simpl.
    destruct (H l0 Hl0) as [-> _]. split; [done|lia].
  - intros Hl. congruence.
Qed.

(** A lease that is not renewed is gone one time to live later. *)
Lemma lease_ok_runs_out T id e dt :
  lease_ok T id e -> T <= dt -> lease_live (advance dt e) id = false.
Proof.
  intros H Hdt. unfold lease_live, advance. simpl.
  destruct (filter _ (leases e) !! id) as [l|] eqn:Hl; [|done].
  apply map_lookup_filter_Some in Hl as [Hl Hlive]. simpl in Hlive.
  apply H in Hl as [_ Hl]. lia.
Qed.

Lemma step_leased r who s s' :
  leased r s -> step r who s = Some s' -> leased r s'.
Proof.
  intros Hinv Hstep. destruct s as [h ro inb w t]. unfold leased in *. simpl in Hinv.
  destruct who; simpl in Hstep.
  - unfold step_handler in Hstep. simpl in Hstep.
    destruct h as [[|]| |]; try done; repeat case_match; simplify_eq/=; done.
  - unfold step_routine in Hstep. simpl in Hstep.
    destruct ro; simplify_eq/=.
    + destruct (call _ w) as [[id|err] w'] eqn:Hc; simplify_eq/=; [|done].
      by apply lease_ok_call_Grant in Hc.
    + destruct (write _ w) as [? w'] eqn:Hc. simplify_eq/=.
      assert (w' = (write (Put (model.FullRuntimeNodePath (NodeName r))
                               (ServerAddr r) leaseID) w).2) as -> by (by rewrite Hc).
      by apply lease_ok_call.
    + destruct (write _ w) as [? w'] eqn:Hc. simplify_eq/=.
      assert (w' = (write (KeepAliveOnce leaseID) w).2) as -> by (by rewrite Hc).
      apply lease_ok_call; [|done]. intros e. apply lease_ok_KeepAliveOnce.
  - simplify_eq/=. destruct ro; try done; by apply lease_ok_advance.
Qed.

Lemma run_leased r sched s : leased r s -> leased r (run r sched s).
Proof.
  revert s. induction sched as [|who sched IH]; intros s Hs; [done|].
  simpl. destruct (step r who s) as [s'|] eqn:Hstep; [|by apply IH].
  apply IH. by eapply step_leased.
Qed.

Lemma stream_leased r upgrade frames w : leased r (stream upgrade frames w).
Proof. by destruct upgrade. Qed.

(** Once the handler has left its loop and the routine waits on the
    channel, neither moves again. *)
Lemma settled_run r sched s id :
  handler s = Closed -> routine s = Waiting id ->
  trace (run r sched s) = trace s.
Proof.
  revert s. induction sched as [|who sched IH]; intros s Hh Hr; [done|].
  simpl. destruct who; simpl.
  - unfold step_handler. rewrite Hh. by apply IH.
  - unfold step_routine. rewrite Hr. by apply IH.
  - by rewrite IH.
Qed.

(** C8, as amended.  In every run of a session, every frame received after
    the first is matched by exactly one keepalive renewal, issued or still
    in flight between the handler and the routine; after the read loop has
    ended at most one renewal, the one in flight, is still issued; and once
    the loop has ended and the routine waits on the channel, the renewals
    equal the heartbeats, no further renewal is ever issued, and the lease
    is gone one time to live later. *)
Theorem session_renewals (r : Gate) (upgrade : Result unit)
    (frames : list (Result model.Whoami)) (w : World) (sched : list Who) :
  let s := run r sched (stream upgrade frames w) in
  Nat.pred (received (trace s)) = (renewals (trace s) + in_flight s)%nat /\
  (renewals_after_end (trace s) <= 1)%nat /\
  (forall id, handler s = Closed -> routine s = Waiting id ->
     Nat.pred (received (trace s)) = renewals (trace s) /\
     (forall sched', trace (run r sched' s) = trace s) /\
     (forall dt, LeaseTime r <= dt ->
        lease_live (advance dt (store (world s))) id = false)).
Proof.
  intros s.
  pose proof (run_accounted r sched _ (stream_accounted upgrade frames w)) as Hacc.
  pose proof (run_ended_once r sched _ (stream_ended_once upgrade frames w)) as Hend.
  pose proof (run_leased r sched _ (stream_leased r upgrade frames w)) as Hlease.
  fold s in Hacc, Hend, Hlease.
  assert (Hcount : Nat.pred (received (trace s)) = (renewals (trace s) + in_flight s)%nat).
  { destruct Hacc as [(Hr & -> & -> & Hh)|(_ & _ & ->)]; [|done].
    unfold in_flight. rewrite Hr. by destruct Hh as [-> | ->]. }
  split; [done|]. split; [by apply ended_once_bound|].
  intros id Hh Hr. split; [|split].
  - rewrite Hcount. unfold in_flight. rewrite Hh, Hr. simpl. lia.
  - intros sched'. by apply (settled_run r sched' s id).
  - intros dt Hdt. unfold leased in Hlease. rewrite Hr in Hlease.
    by apply (lease_ok_runs_out (LeaseTime r)).
Qed.

Lemma session_renewals_witness :
  let s := run gate_1 sched_1 (stream (Ok tt) frames_1 (quiet etcd.empty)) in
  handler s = Closed /\ routine s = Waiting 1 /\
  renewals (trace s) = 1%nat /\
  lease_live (advance (4 * Second) (store (world s))) 1 = false.
Proof.
  cbn zeta.
  destruct (session_renewals gate_1 (Ok tt) frames_1 (quiet etcd.empty) sched_1)
    as (_ & _ & H).
  destruct (H 1 eq_refl eq_refl) as (Hn & _ & Hl).
  split; [reflexivity|]. split; [reflexivity|]. split.
  - rewrite <- Hn. reflexivity.
  - apply Hl. reflexivity.
Defined.

(** C8, as stated, fails: in the session of worker-1 the handler reads the
    end of the connection while the routine still holds the heartbeat it
    received, and the routine renews the lease after the loop has ended. *)
Lemma session_renewal_after_loop_end :
  ~ (forall (r : Gate) (upgrade : Result unit) (frames : list (Result model.Whoami))
            (w : World) (sched : list Who),
       renewals_after_end (trace (run r sched (stream upgrade frames w))) = 0%nat).
Proof.
  intros H.
  specialize (H gate_1 (Ok tt) frames_1 (quiet etcd.empty) sched_1).
  vm_compute in H. discriminate H.
Qed.

(** * Further properties of the handlers *)

(** ** createTask: what else the handler shows *)

Section CreateTaskMore.
Variable json_Marshal : model.Param -> Result string.

(** X1.  createTask touches the keys of its own task only: whatever the
    outcome and whatever else happens around its calls, every other key is
    after the request as the other clients left it. *)
Theorem createTask_frame (c : Context) (req : model.Param) (w : World) (key : string) :
  ShouldBind c = Ok req ->
  key <> def_key req -> key <> state_key req ->
  exists n, kvs (store (createTask json_Marshal c w).2) !! key =
            kvs (bystanders n w) !! key.
Proof.
  intros Hb H1 H2.
  destruct (createTask json_Marshal c w) as [out w'] eqn:Hc.
  destruct (createTask_cases json_Marshal c req w out w' Hb Hc)
    as [[_ (n & all & _ & _ & Hs)]|[_ [n Hs]]]; exists n; cbn [snd]; rewrite Hs.
  - by apply created_other.
  - done.
Qed.

(** X2.  createTask ends in one of three ways: the reply 200 with code 0, a
    reply 500 with code 500 and a message, or the panic on the nil response;
    it panics only when the keys-only read failed; and a body that does not
    bind is answered 500 "createTask:<err>" before any call to etcd. *)
Theorem createTask_outcomes (c : Context) (w : World) :
  let out := (createTask json_Marshal c w).1 in
  (out = Replied (JSONMessage 200 0 "") \/
   (exists msg, out = Replied (JSONMessage 500 500 msg)) \/
   (out = Panicked nil_dereference /\
    exists req t rest err,
      ShouldBind c = Ok req /\ script w = t :: rest /\ fault t = Some err)) /\
  (forall err, ShouldBind c = Err err ->
     createTask json_Marshal c w =
     (Replied (JSONMessage 500 500 ("createTask:" +:+ err)), w)).
Proof.
  cbn zeta. split.
  2:{ intros err Hb. unfold createTask. by rewrite Hb. }
  unfold createTask. destruct (ShouldBind c) as [req|err] eqn:Hb.
  2:{ right. left. by eexists. }
  destruct w as [e sc]. unfold read. destruct sc as [|t1 sc1].
  - rewrite call_nil. cbn [fst snd].
    destruct (0 <? length _)%nat; [right; left; by eexists|].
    destruct (json_Marshal req); [|right; left; by eexists].
    rewrite call_nil. cbn [fst snd].
    destruct (negb _); [right; left; by eexists|by left].
  - rewrite call_cons. destruct (fault t1) as [err1|] eqn:Hf.
    { right. right. split; [done|]. by exists req, t1, sc1, err1. }
    cbn [fst snd].
    destruct (0 <? length _)%nat; [right; left; by eexists|].
    destruct (json_Marshal req); [|right; left; by eexists].
    destruct sc1 as [|t2 sc2].
    + rewrite call_nil. cbn [fst snd].
      destruct (negb _); [right; left; by eexists|by left].
    + rewrite call_cons. destruct (fault t2); [right; left; by eexists|].
      cbn [fst snd]. destruct (negb _); [right; left; by eexists|by left].
Qed.

(** X3.  The commit that loses the race: when the keys-only read finds no
    definition but another client has created one by the time of the
    commit, the transaction does not go through; the answer is 500 with the
    message of the failed transaction and the handler has written nothing. *)
Theorem createTask_conflict (c : Context) (req : model.Param) (all : string)
    (e : Etcd) (t1 t2 : Turn) (rest : list Turn) :
  ShouldBind c = Ok req ->
  json_Marshal req = Ok all ->
  fault t1 = None -> fault t2 = None ->
  kvs (foldl foreign e (others t1)) !! def_key req = None ->
  create_revision (foldl foreign (foldl foreign e (others t1)) (others t2))
    (def_key req) <> 0 ->
  createTask json_Marshal c {| store := e; script := t1 :: t2 :: rest |} =
  (Replied (JSONMessage 500 500 "事务失败"),
   {| store := foldl foreign (foldl foreign e (others t1)) (others t2);
      script := rest |}).
Proof.
  intros Hb Hm Hf1 Hf2 Hnone Hrev. unfold createTask. rewrite Hb.
  fold (def_key req) (state_key req). unfold read.
  rewrite call_cons, Hf1. cbn [fst snd].
  rewrite GetKeysOnly_length, Hnone. cbn [Nat.ltb Nat.leb]. rewrite Hm.
  rewrite call_cons, Hf2, Txn_create.
  apply Z.eqb_neq in Hrev. rewrite Hrev. reflexivity.
Qed.

(** X4.  The guard looks at the definition key alone: when a state key is
    there without a definition, the create succeeds and overwrites the
    state with CanRun, as the next version of the old key. *)
Theorem createTask_resets_state (c : Context) (req : model.Param) (all : string)
    (e : Etcd) (old : KeyValue) :
  ShouldBind c = Ok req ->
  json_Marshal req = Ok all ->
  kvs e !! def_key req = None ->
  kvs e !! state_key req = Some old ->
  (createTask json_Marshal c (quiet e)).1 = Replied (JSONMessage 200 0 "") /\
  kvs (store (createTask json_Marshal c (quiet e)).2) !! state_key req =
    Some {| Value := model.CanRun; CreateRevision := CreateRevision old;
            ModRevision := revision e + 1; Version := Version old + 1;
            Lease := 0 |}.
Proof.
  intros Hb Hm Hd Hs. rewrite (createTask_quiet _ _ _ _ Hb), Hd, Hm.
  split; [done|]. cbn [snd quiet store].
  unfold created, apply_ops, put_at. simpl. rewrite Hd.
  rewrite lookup_insert_ne by apply task_paths_differ. rewrite Hs.
  by rewrite lookup_insert_eq.
Qed.

End CreateTaskMore.

Lemma createTask_frame_witness :
  kvs (store (createTask marshal_spec (post build_2)
                (createTask marshal_spec (post build_1) (quiet etcd.empty)).2).2)
    !! def_key build_1 =
  kvs (store (createTask marshal_spec (post build_1) (quiet etcd.empty)).2)
    !! def_key build_1.
Proof.
  destruct (createTask_frame marshal_spec (post build_2) build_2
              (createTask marshal_spec (post build_1) (quiet etcd.empty)).2
              (def_key build_1) eq_refl) as [n Hn]; [discriminate|discriminate|].
  rewrite Hn. by destruct n.
Defined.

Lemma createTask_conflict_witness :
  (createTask marshal_spec (post build_1)
     {| store := etcd.empty;
        script := [mkTurn [] None; mkTurn [FPut (def_key build_1) "theirs"] None] |}).1
  = Replied (JSONMessage 500 500 "事务失败").
Proof.
  by rewrite (createTask_conflict marshal_spec (post build_1) build_1 "echo" etcd.empty
       (mkTurn [] None) (mkTurn [FPut (def_key build_1) "theirs"] None) []
       eq_refl eq_refl eq_refl eq_refl eq_refl ltac:(discriminate)).
Defined.

Lemma createTask_resets_state_witness :
  Value <$> kvs (store (createTask marshal_spec (post build_1) (quiet stale_state)).2)
              !! state_key build_1 = Some model.CanRun /\
  Value <$> kvs stale_state !! state_key build_1 = Some "Running".
Proof.
  destruct (createTask_resets_state marshal_spec (post build_1) build_1 "echo" stale_state
              {| Value := "Running"; CreateRevision := 2; ModRevision := 2;
                 Version := 1; Lease := 0 |} eq_refl eq_refl eq_refl eq_refl) as [_ H].
  rewrite H. split; reflexivity.
Defined.



Lemma init_fields (RuntimeKeepalive : Z) (uuid : string) (r : Gate) (w : World) :
  let r' := (init RuntimeKeepalive uuid r w).1.1 in
  ServerAddr r' = ServerAddr r /\ AutoFindAddr r' = AutoFindAddr r /\
  EtcdAddr r' = EtcdAddr r /\ NamePrefix r' = NamePrefix r /\ Level r' = Level r /\
  Name r' = (if decide (Name r = "") then uuid else Name r).
Proof.
  cbn zeta. unfold init.
  destruct (read (fun _ => tt) w) as [[?|?] ?]; cbn [fst snd];
    destruct (decide (Name r = "")); cbn [LeaseTime with_Name];
    destruct (_ <? RuntimeKeepalive); done.
Qed.

(** X5.  init leaves a lease time at or above the keepalive interval as it
    is and raises a smaller one to the interval plus one second (as long as
    that fits an int64), so the lease time is not below the interval
    afterwards; the name is replaced by the uuid only when it is empty;
    address, auto-find flag and prefix are not touched; all this whether or
    not the client could be created. *)
Theorem init_lease_floor (RuntimeKeepalive : Z) (uuid : string) (r : Gate) (w : World) :
  - 2 ^ 63 <= RuntimeKeepalive -> RuntimeKeepalive + Second < 2 ^ 63 ->
  let r' := (init RuntimeKeepalive uuid r w).1.1 in
  RuntimeKeepalive <= LeaseTime r' /\
  (RuntimeKeepalive <= LeaseTime r -> LeaseTime r' = LeaseTime r) /\
  (LeaseTime r < RuntimeKeepalive -> LeaseTime r' = RuntimeKeepalive + Second) /\
  Name r' = (if decide (Name r = "") then uuid else Name r) /\
  ServerAddr r' = ServerAddr r /\ AutoFindAddr r' = AutoFindAddr r /\
  NamePrefix r' = NamePrefix r.
Proof.
  intros Hlo Hhi r'.
  destruct (init_fields RuntimeKeepalive uuid r w) as (Hs & Ha & _ & Hp & _ & Hn).
  subst r'. rewrite init_LeaseTime.
  destruct (LeaseTime r <? RuntimeKeepalive) eqn:Hlt.
  - apply Z.ltb_lt in Hlt. rewrite wrap64_small by (unfold Second in *; lia).
    unfold Second in *. repeat split; try done; lia.
  - apply Z.ltb_ge in Hlt. repeat split; try done; lia.
Qed.

Lemma init_lease_floor_witness :
  LeaseTime (init (3 * Second) "uuid" (with_LeaseTime gate_1 Second) (quiet etcd.empty)).1.1
  = 4 * Second.
Proof.
  destruct (init_lease_floor (3 * Second) "uuid" (with_LeaseTime gate_1 Second)
              (quiet etcd.empty)) as (_ & _ & H & _); [done|done|].
  rewrite H; [reflexivity|]. reflexivity.
Defined.

Lemma registerGateNode_quiet (GetUnusedAddr : string) (r : Gate) (e : Etcd) :
  getAddress GetUnusedAddr r <> "" ->
  registerGateNode GetUnusedAddr r (quiet e) =
  (Returned None,
   quiet (Put (model.FullGateNodePath (NodeName r)) (ServerAddr r) (next_lease e)
              (Grant (LeaseTime r) e).2)).
Proof.
  intros Ha. unfold registerGateNode. rewrite (bool_decide_eq_false_2 _ Ha).
  rewrite call_quiet. cbn [fst snd Grant]. by rewrite write_quiet.
Qed.

(** X6.  On an undisturbed store a gate with an address registers itself:
    registerGateNode returns nil, the key of the gate node holds
    r.ServerAddr and is attached to the lease just granted with
    r.LeaseTime, and no other key changes. *)
Theorem registerGateNode_registers (GetUnusedAddr : string) (r : Gate) (e : Etcd) :
  getAddress GetUnusedAddr r <> "" ->
  let out := registerGateNode GetUnusedAddr r (quiet e) in
  out.1 = Returned None /\
  kvs (store out.2) !! model.FullGateNodePath (NodeName r) =
    Some {| Value := ServerAddr r;
            CreateRevision := match kvs e !! model.FullGateNodePath (NodeName r) with
                              | Some kv => CreateRevision kv
                              | None => revision e + 1
                              end;
            ModRevision := revision e + 1;
            Version := match kvs e !! model.FullGateNodePath (NodeName r) with
                       | Some kv => Version kv + 1
                       | None => 1
                       end;
            Lease := next_lease e |} /\
  leases (store out.2) !! next_lease e =
    Some {| ttl := LeaseTime r; expiry := now e + LeaseTime r |} /\
  (forall key, key <> model.FullGateNodePath (NodeName r) ->
     kvs (store out.2) !! key = kvs e !! key).
Proof.
  intros Ha out. subst out. rewrite (registerGateNode_quiet _ _ _ Ha).
  cbn [fst snd quiet store Put Grant with_kvs kvs leases revision].
  split; [done|]. split; [|split].
  - unfold put_at. destruct (kvs e !! _); by rewrite lookup_insert_eq.
  - by rewrite lookup_insert_eq.
  - intros key Hk. by apply put_at_lookup_ne.
Qed.

Lemma registerGateNode_registers_witness :
  Value <$> kvs (store (registerGateNode "" gate_1 (quiet etcd.empty)).2)
              !! "/scheduler/gate/node/gate-g1" = Some "10.0.0.1:8080".
Proof.
  destruct (registerGateNode_registers "" gate_1 etcd.empty) as (_ & H & _);
    [discriminate|].
  change "/scheduler/gate/node/gate-g1" with (model.FullGateNodePath (NodeName gate_1)).
  by rewrite H.
Defined.

(** X7.  When the address is to be found automatically (ServerAddr empty,
    AutoFindAddr set), registration goes through, but the value written is
    the empty ServerAddr, not the address found. *)
Theorem registerGateNode_auto_address_empty (GetUnusedAddr : string) (r : Gate) (e : Etcd) :
  ServerAddr r = "" -> AutoFindAddr r = true -> GetUnusedAddr <> "" ->
  let out := registerGateNode GetUnusedAddr r (quiet e) in
  out.1 = Returned None /\
  exists kv, kvs (store out.2) !! model.FullGateNodePath (NodeName r) = Some kv /\
    Value kv = "" /\ Value kv <> GetUnusedAddr /\ Lease kv = next_lease e.
Proof.
  intros Hs Ha Hg out. subst out.
  assert (Haddr : getAddress GetUnusedAddr r <> "").
  { unfold getAddress. rewrite Hs, Ha. done. }
  rewrite (registerGateNode_quiet _ _ _ Haddr).
  cbn [fst snd quiet store Put Grant with_kvs kvs].
  split; [done|].
  destruct (put_at_lookup (revision e + 1) (next_lease e) (kvs e)
              (model.FullGateNodePath (NodeName r)) (ServerAddr r))
    as (kv & Hk & Hv & Hl & _).
  exists kv. rewrite Hs in Hv. repeat split; try done. rewrite Hv. congruence.
Qed.

Lemma registerGateNode_auto_address_empty_witness :
  Value <$> kvs (store (registerGateNode "192.168.0.7:41000" gate_auto (quiet etcd.empty)).2)
              !! "/scheduler/gate/node/gate-g2" = Some "".
Proof.
  destruct (registerGateNode_auto_address_empty "192.168.0.7:41000" gate_auto etcd.empty)
    as (_ & kv & Hk & Hv & _); [reflexivity|reflexivity|discriminate|].
  change "/scheduler/gate/node/gate-g2" with (model.FullGateNodePath (NodeName gate_auto)).
  rewrite Hk. simpl. by rewrite Hv.
Defined.

(** X8.  When the lease is granted but the Put fails, registerGateNode
    returns the error of the Put; the lease stays granted and the gate has
    written no key. *)
Theorem registerGateNode_put_fails (GetUnusedAddr : string) (r : Gate) (e : Etcd)
    (t1 t2 : Turn) (rest : list Turn) (err : string) :
  getAddress GetUnusedAddr r <> "" ->
  fault t1 = None -> fault t2 = Some err ->
  let e1 := foldl foreign e (others t1) in
  let out := registerGateNode GetUnusedAddr r {| store := e; script := t1 :: t2 :: rest |} in
  out = (Returned (Some err),
         {| store := foldl foreign (Grant (LeaseTime r) e1).2 (others t2);
            script := rest |}) /\
  leases (Grant (LeaseTime r) e1).2 !! next_lease e1 =
    Some {| ttl := LeaseTime r; expiry := now e1 + LeaseTime r |}.
Proof.
  intros Ha H1 H2 e1 out. subst out. split.
  - unfold registerGateNode. rewrite (bool_decide_eq_false_2 _ Ha).
    rewrite call_cons, H1. cbn [fst snd Grant]. unfold write.
    by rewrite call_cons, H2.
  - simpl. by rewrite lookup_insert_eq.
Qed.

Lemma registerGateNode_put_fails_witness :
  (registerGateNode "" gate_1
     {| store := etcd.empty;
        script := [mkTurn [] None; mkTurn [] (Some "etcdserver: request timed out")] |}).1
  = Returned (Some "etcdserver: request timed out").
Proof.
  destruct (registerGateNode_put_fails "" gate_1 etcd.empty (mkTurn [] None)
              (mkTurn [] (Some "etcdserver: request timed out")) []
              "etcdserver: request timed out") as [H _];
    [discriminate|reflexivity|reflexivity|].
  by rewrite H.
Defined.

(** X9.  SubMain ends in a panic exactly when init returned an error or the
    gate has no address; every other failure leaves the server running. *)
Theorem SubMain_aborts_iff (RuntimeKeepalive : Z) (GetUnusedAddr uuid : string)
    (r : Gate) (w : World) :
  (exists msg, SubMain RuntimeKeepalive GetUnusedAddr uuid r w = Aborted msg) <->
  (init RuntimeKeepalive uuid r w).1.2 <> None \/ getAddress GetUnusedAddr r = "".
Proof.
  unfold SubMain.
  pose proof (init_addr RuntimeKeepalive uuid r w) as [Hs Ha].
  destruct (init RuntimeKeepalive uuid r w) as [[r' [err|]] w']; cbn [fst snd] in *.
  { split; [by left|]. intros _. by eexists. }
  assert (Hg : getAddress GetUnusedAddr r' = getAddress GetUnusedAddr r).
  { unfold getAddress. by rewrite Hs, Ha. }
  unfold registerGateNode. rewrite Hg.
  destruct (bool_decide (getAddress GetUnusedAddr r = "")) eqn:Hd.
  - apply bool_decide_eq_true in Hd. split; [by right|]. intros _. by eexists.
  - apply bool_decide_eq_false in Hd.
    destruct (call _ w') as [[id|e1] w1].
    + destruct (write _ w1) as [[?|?] w2]; (split; [by intros [? ?]|by intros [?|?]]).
    + split; [by intros [? ?]|by intros [?|?]].
Qed.




(** *** A failed upgrade *)

Lemma run_idle r sched s :
  handler s = Closed -> routine s = NotStarted ->
  let s' := run r sched s in
  handler s' = Closed /\ routine s' = NotStarted /\ inbox s' = inbox s /\
  trace s' = trace s /\ script (world s') = script (world s).
Proof.
  revert s. induction sched as [|who sched IH]; intros s Hh Hr; [done|].
  simpl. destruct who; simpl.
  - unfold step_handler. rewrite Hh. by apply IH.
  - unfold step_routine. rewrite Hr. by apply IH.
  - by destruct (IH {| handler := handler s; routine := routine s; inbox := inbox s;
        world := {| store := advance dt (store (world s)); script := script (world s) |};
        trace := trace s |} Hh Hr) as (?&?&?&?&?).
Qed.

(** X10.  When the upgrade fails the session does nothing at all: no frame
    is read, no routine is started and no call goes to etcd, whatever the
    schedule. *)
Theorem stream_upgrade_fails (r : Gate) (err : string)
    (frames : list (Result model.Whoami)) (w : World) (sched : list Who) :
  let s := run r sched (stream (Err err) frames w) in
  handler s = Closed /\ routine s = NotStarted /\ inbox s = frames /\
  trace s = [] /\ script (world s) = script w.
Proof. by apply (run_idle r sched (stream (Err err) frames w)). Qed.

(** *** The name the worker sends *)

Lemma step_blank r who s :
  step r who (blank_session s) = blank_session <$> step r who s.
Proof.
  destruct s as [h ro inb w t]. destruct who; simpl.
  - unfold step_handler, blank_session. simpl.
    destruct h as [[|]| |]; [destruct inb as [|[req|err] rest]..| |]; simpl;
      try done; try (by rewrite fmap_app); by destruct ro.
  - unfold step_routine, blank_session. simpl.
    destruct ro; simpl; try done.
    + destruct (call _ w) as [[id|err] w']; simpl; [|done]. by rewrite fmap_app.
    + destruct (write _ w) as [? w']. simpl. by rewrite fmap_app.
    + destruct (write _ w) as [? w']. simpl. by rewrite fmap_app.
  - done.
Qed.

Lemma run_blank r sched s :
  run r sched (blank_session s) = blank_session (run r sched s).
Proof.
  revert s. induction sched as [|who sched IH]; intros s; [done|].
  simpl. rewrite step_blank. destruct (step r who s); simpl; apply IH.
Qed.

(** X11.  The name in the whoami has no influence: with the names of all
    frames blanked, the session goes through the same handler states and
    leaves the same world, under every schedule. *)
Theorem session_ignores_name (r : Gate) (upgrade : Result unit)
    (frames : list (Result model.Whoami)) (w : World) (sched : list Who) :
  let s := run r sched (stream upgrade frames w) in
  let s' := run r sched (stream upgrade (blank <$> frames) w) in
  world s' = world s /\ handler s' = handler s /\
  trace s' = blank_event <$> trace s.
Proof.
  cbn zeta.
  assert (Hs : stream upgrade (blank <$> frames) w = blank_session (stream upgrade frames w))
    by (by destruct upgrade).
  rewrite Hs, run_blank. done.
Qed.

(** *** One lease a session *)

Lemma grants_snoc t ev :
  grants (t ++ [ev]) = (grants t + if is_NewLease ev then 1 else 0)%nat.
Proof.
  unfold grants. rewrite List.filter_app, length_app. simpl.
  by destruct (is_NewLease ev).
Qed.

Lemma puts_snoc t ev :
  puts (t ++ [ev]) = (puts t + if is_PutNode ev then 1 else 0)%nat.
Proof.
  unfold puts. rewrite List.filter_app, length_app. simpl.
  by destruct (is_PutNode ev).
Qed.

Lemma leaseless_uses id ev : leaseless ev -> uses id ev.
Proof. by destruct ev. Qed.

Lemma Forall_app_one {A} (P : A -> Prop) l x : Forall P l -> P x -> Forall P (l ++ [x]).
Proof. intros. apply Forall_app. split; [done|]. by constructor. Qed.

Lemma step_single_lease r who s s' :
  single_lease s -> step r who s = Some s' -> single_lease s'.
Proof.
  intros (Hg & Hp & Hn & Hu) Hstep. destruct s as [h ro inb w t].
  unfold single_lease in *. simpl in Hg, Hp, Hn, Hu.
  destruct who; simpl in Hstep.
  - unfold step_handler in Hstep. simpl in Hstep.
    destruct h as [[|]| |]; try done; try (rewrite Hn in * by done);
      repeat case_match; simplify_eq/=;
      rewrite ?grants_snoc, ?puts_snoc; simpl;
      (split; [lia|]); (split; [lia|]); (split; [done|]);
      try (apply Forall_app_one; done); done.
  - unfold step_routine in Hstep. simpl in Hstep.
    destruct ro; simplify_eq/=.
    + destruct (call _ w) as [[id|err] w']; simplify_eq/=;
        rewrite ?grants_snoc, ?puts_snoc; simpl;
        (split; [lia|]); (split; [lia|]); (split; [by intros Hh; specialize (Hn Hh)|]); [|done].
      apply Forall_app_one; [|done].
      eapply Forall_impl; [exact Hu|]. intros ev. apply leaseless_uses.
    + destruct (write _ w) as [? w']. simplify_eq/=.
      rewrite ?grants_snoc, ?puts_snoc; simpl.
      (split; [lia|]); (split; [lia|]); (split; [by intros Hh; specialize (Hn Hh)|]). by apply Forall_app_one.
    + destruct (write _ w) as [? w']. simplify_eq/=.
      rewrite ?grants_snoc, ?puts_snoc; simpl.
      (split; [lia|]); (split; [lia|]); (split; [by intros Hh; specialize (Hn Hh)|]). by apply Forall_app_one.
  - simplify_eq/=. done.
Qed.

Lemma run_single_lease r sched s : single_lease s -> single_lease (run r sched s).
Proof.
  revert s. induction sched as [|who sched IH]; intros s Hs; [done|].
  simpl. destruct (step r who s) as [s'|] eqn:Hstep; [|by apply IH].
  apply IH. by eapply step_single_lease.
Qed.

Lemma stream_single_lease upgrade frames w : single_lease (stream upgrade frames w).
Proof. destruct upgrade; repeat split; simpl; try lia; constructor. Qed.

(** X12.  A session asks for one lease at most and puts its node key once
    at most, and every Put and KeepAliveOnce it issues is on that one
    lease. *)
Theorem session_single_lease (r : Gate) (upgrade : Result unit)
    (frames : list (Result model.Whoami)) (w : World) (sched : list Who) :
  let s := run r sched (stream upgrade frames w) in
  (grants (trace s) <= 1)%nat /\ (puts (trace s) <= grants (trace s))%nat /\
  exists id, Forall (uses id) (trace s).
Proof.
  intros s.
  destruct (run_single_lease r sched _ (stream_single_lease upgrade frames w))
    as (Hg & Hp & _ & Hu). fold s in Hg, Hp, Hu.
  split; [lia|]. split; [lia|].
  destruct (routine s); try (by eexists);
    exists 0; (eapply Forall_impl; [exact Hu|]); intros ev; apply leaseless_uses.
Qed.

(** *** When NewLease fails *)

Lemma leaseless_renewals t : Forall leaseless t -> renewals t = 0%nat.
Proof.
  induction 1 as [|ev t Hev _ IH]; [done|].
  unfold renewals in *. simpl. by destruct ev.
Qed.

Lemma run_stuck r sched s err :
  handler s = Sending -> routine s = ReturnedErr err ->
  let s' := run r sched s in
  handler s' = Sending /\ routine s' = ReturnedErr err /\
  trace s' = trace s /\ inbox s' = inbox s.
Proof.
  revert s. induction sched as [|who sched IH]; intros s Hh Hr; [done|].
  simpl. destruct who; simpl.
  - unfold step_handler. rewrite Hh, Hr. by apply IH.
  - unfold step_routine. rewrite Hr. by apply IH.
  - by destruct (IH {| handler := handler s; routine := routine s; inbox := inbox s;
        world := {| store := advance dt (store (world s)); script := script (world s) |};
        trace := trace s |} Hh Hr) as (?&?&?&?).
Qed.

(** X13.  When utils.NewLease fails the routine is gone: the session issues
    no call on a lease, receives two frames at most, and once the handler
    sends the first heartbeat it stays in that send for ever. *)
Theorem session_without_lease_blocks (r : Gate) (upgrade : Result unit)
    (frames : list (Result model.Whoami)) (w : World) (sched : list Who) :
  let s := run r sched (stream upgrade frames w) in
  forall err, routine s = ReturnedErr err ->
    Forall leaseless (trace s) /\
    (received (trace s) <= 2)%nat /\
    (handler s = Sending ->
     forall sched',
       handler (run r sched' s) = Sending /\
       trace (run r sched' s) = trace s /\
       inbox (run r sched' s) = inbox s).
Proof.
  intros s err Hr.
  destruct (run_single_lease r sched _ (stream_single_lease upgrade frames w))
    as (_ & _ & _ & Hu). fold s in Hu. rewrite Hr in Hu.
  pose proof (run_accounted r sched _ (stream_accounted upgrade frames w)) as Hacc.
  fold s in Hacc.
  split; [done|]. split.
  - destruct Hacc as [(Hr' & _)|(_ & _ & ->)]; [congruence|].
    rewrite (leaseless_renewals _ Hu). unfold in_flight. rewrite Hr.
    destruct (handler s); simpl; lia.
  - intros Hh sched'.
    by destruct (run_stuck r sched' s err Hh Hr) as (?&?&?&?).
Qed.

(** *** Frames in order, up to the first read error *)

Lemma messages_snoc t ev :
  messages (t ++ [ev]) =
  messages t ++ match ev with Received req => [req] | _ => [] end.
Proof. unfold messages. rewrite omap_app. by destruct ev. Qed.

Lemma step_in_order r msgs err rest who s s' :
  in_order msgs err rest s -> step r who s = Some s' -> in_order msgs err rest s'.
Proof.
  intros Hinv Hstep. destruct s as [h ro inb w t]. unfold in_order in *.
  simpl in Hinv. destruct who; simpl in Hstep.
  - unfold step_handler in Hstep. simpl in Hstep.
    destruct Hinv as [(Hh & k & -> & Hm)|(-> & _)]; [|done].
    destruct h as [first| |]; [| |done].
    + destruct (drop k msgs) as [|m ms] eqn:Hd; simpl in Hstep.
      * simplify_eq/=. right. rewrite messages_snoc, app_nil_r.
        split; [done|]. split; [done|]. rewrite Hm.
        apply take_ge. apply (f_equal length) in Hd.
        rewrite length_drop in Hd. simpl in Hd. lia.
      * assert (Hk : msgs !! k = Some m).
        { rewrite <- (Nat.add_0_r k), <- lookup_drop, Hd. done. }
        assert (Hd' : ms = drop (S k) msgs).
        { rewrite (drop_S _ _ _ Hk) in Hd. congruence. }
        assert (Ht : take (S k) msgs = take k msgs ++ [m]) by (by apply take_S_r).
        destruct first; simplify_eq/=; left; (split; [done|]); exists (S k);
          rewrite messages_snoc, Hm, Ht; done.
    + destruct ro; simplify_eq/=. left. split; [done|]. by exists k.
  - unfold step_routine in Hstep. simpl in Hstep.
    destruct ro; simplify_eq/=.
    + destruct (call _ w) as [[id|e1] w']; simplify_eq/=;
        rewrite ?messages_snoc, ?app_nil_r; done.
    + destruct (write _ w) as [? w']. simplify_eq/=.
      by rewrite ?messages_snoc, ?app_nil_r.
    + destruct (write _ w) as [? w']. simplify_eq/=.
      by rewrite ?messages_snoc, ?app_nil_r.
  - simplify_eq/=. done.
Qed.

Lemma run_in_order r msgs err rest sched s :
  in_order msgs err rest s -> in_order msgs err rest (run r sched s).
Proof.
  revert s. induction sched as [|who sched IH]; intros s Hs; [done|].
  simpl. destruct (step r who s) as [s'|] eqn:Hstep; [|by apply IH].
  apply IH. by eapply step_in_order.
Qed.

(** X14.  Frames are received in order and only up to the first read error:
    the messages received are a prefix of those sent before the error, and
    what follows the error on the connection is never read. *)
Theorem stream_stops_at_first_error (r : Gate) (msgs : list model.Whoami) (err : string)
    (rest : list (Result model.Whoami)) (w : World) (sched : list Who) :
  let s := run r sched (stream (Ok tt) ((Ok <$> msgs) ++ Err err :: rest) w) in
  messages (trace s) `prefix_of` msgs /\
  rest `suffix_of` inbox s /\
  (handler s = Closed -> messages (trace s) = msgs /\ inbox s = rest).
Proof.
  intros s.
  assert (Hinv : in_order msgs err rest s).
  { apply run_in_order. left. split; [done|]. exists 0%nat. by rewrite drop_0. }
  destruct Hinv as [(Hh & k & Hi & Hm)|(Hh & Hi & Hm)].
  - split; [rewrite Hm; apply prefix_take|]. split; [|done].
    rewrite Hi. exists ((Ok <$> drop k msgs) ++ [Err err]).
    by rewrite <- app_assoc.
  - split; [by rewrite Hm|]. split; [by rewrite Hi|]. done.
Qed.

(** *** When the Put fails *)

(** X15.  The error of the Put in registerRuntimeWithKeepalive is not looked
    at: after a failed Put the routine waits for the heartbeats of a lease
    that has no key. *)
Theorem runtime_put_failure_unnoticed (r : Gate) (name : string) (e : Etcd)
    (t1 t2 : Turn) (rest : list Turn) (err : string) :
  fault t1 = None -> fault t2 = Some err ->
  let e1 := foldl foreign e (others t1) in
  let s := run r [TheHandler; TheRoutine; TheRoutine]
             (stream (Ok tt) [Ok (model.mkWhoami name)]
                {| store := e; script := t1 :: t2 :: rest |}) in
  routine s = Waiting (next_lease e1) /\
  world s = {| store := foldl foreign (Grant (LeaseTime r) e1).2 (others t2);
               script := rest |}.
Proof.
  intros H1 H2 e1 s. subst s.
  cbn [run step stream step_handler handler inbox].
  cbn [step_routine routine world]. rewrite call_cons, H1.
  cbn [fst snd step_routine routine world]. unfold write. rewrite call_cons, H2.
  done.
Qed.

Lemma runtime_put_failure_unnoticed_witness :
  let s := run gate_1 [TheHandler; TheRoutine; TheRoutine]
             (stream (Ok tt) [Ok (model.mkWhoami "worker-1")]
                {| store := etcd.empty;
                   script := [mkTurn [] None; mkTurn [] (Some "timeout")] |}) in
  routine s = Waiting 1 /\ kvs (store (world s)) = ∅.
Proof.
  destruct (runtime_put_failure_unnoticed gate_1 "worker-1" etcd.empty
              (mkTurn [] None) (mkTurn [] (Some "timeout")) [] "timeout"
              eq_refl eq_refl) as [H1 H2].
  cbn zeta. rewrite H1, H2. done.
Defined.


Lemma advance_kvs dt e key kv :
  kvs (advance dt e) !! key = Some kv <->
  kvs e !! key = Some kv /\
  (Lease kv = 0 \/
   exists l, leases e !! Lease kv = Some l /\ now e + Z.max 0 dt < expiry l).
Proof.
  unfold advance. cbn [kvs]. rewrite map_lookup_filter_Some. cbn [snd].
  split; intros [Hk Hl]; (split; [done|]); destruct Hl as [?|Hl]; try by left.
  - right. destruct Hl as [l Hl]. apply map_lookup_filter_Some in Hl as [? ?]. eauto.
  - right. destruct Hl as (l & Hl & Ht). exists l. by apply map_lookup_filter_Some.
Qed.

Lemma advance_leases dt e id l :
  leases (advance dt e) !! id = Some l <->
  leases e !! id = Some l /\ now e + Z.max 0 dt < expiry l.
Proof. unfold advance. cbn [leases]. by rewrite map_lookup_filter_Some. Qed.

Lemma advance_kvs_gone dt e key kv l :
  kvs e !! key = Some kv -> Lease kv <> 0 ->
  leases e !! Lease kv = Some l -> expiry l <= now e + Z.max 0 dt ->
  kvs (advance dt e) !! key = None.
Proof.
  intros Hk Hn Hl He. destruct (kvs (advance dt e) !! key) as [kv'|] eqn:Hk'; [|done].
  apply advance_kvs in Hk' as [Hk' [H0|(l' & Hl' & Ht)]]; simplify_eq; lia.
Qed.

Lemma registered_key r e :
  kvs (registered r e) !! model.FullRuntimeNodePath (NodeName r) =
  Some {| Value := ServerAddr r;
          CreateRevision := match kvs e !! model.FullRuntimeNodePath (NodeName r) with
                            | Some kv => CreateRevision kv
                            | None => revision e + 1
                            end;
          ModRevision := revision e + 1;
          Version := match kvs e !! model.FullRuntimeNodePath (NodeName r) with
                     | Some kv => Version kv + 1
                     | None => 1
                     end;
          Lease := next_lease e |}.
Proof.
  unfold registered, Put, put_at. cbn [kvs with_kvs Grant snd revision].
  destruct (kvs e !! _); by rewrite lookup_insert_eq.
Qed.

Lemma registered_lease r e :
  leases (registered r e) !! next_lease e =
  Some {| ttl := LeaseTime r; expiry := now e + LeaseTime r |}.
Proof. unfold registered. simpl. by rewrite lookup_insert_eq. Qed.

Lemma registered_now r e : now (registered r e) = now e.
Proof. done. Qed.

Lemma run_registration r frames name e :
  run r [TheHandler; TheRoutine; TheRoutine]
      (stream (Ok tt) (Ok (model.mkWhoami name) :: frames) (quiet e)) =
  {| handler := Reading false; routine := Waiting (next_lease e); inbox := frames;
     world := quiet (registered r e);
     trace := [Received (model.mkWhoami name); NewLease (next_lease e);
               PutNode (model.FullRuntimeNodePath (NodeName r)) (ServerAddr r)
                       (next_lease e)] |}.
Proof.
  cbn [run step stream step_handler handler inbox].
  cbn [step_routine routine world]. rewrite call_quiet.
  cbn [Grant fst snd step_routine routine world]. rewrite write_quiet.
  reflexivity.
Qed.

(** X16.  The node key lives exactly as long as its lease: after the
    registration, without a heartbeat, the key is there while less than
    LeaseTime has passed, and key and lease are gone once LeaseTime has
    passed. *)
Theorem runtime_key_lifetime (r : Gate) (name : string) (e : Etcd) (dt : Z) :
  next_lease e <> 0 ->
  let s := run r [TheHandler; TheRoutine; TheRoutine; Clock dt]
             (stream (Ok tt) [Ok (model.mkWhoami name)] (quiet e)) in
  (Z.max 0 dt < LeaseTime r ->
     Value <$> kvs (store (world s)) !! model.FullRuntimeNodePath (NodeName r)
     = Some (ServerAddr r)) /\
  (LeaseTime r <= Z.max 0 dt ->
     kvs (store (world s)) !! model.FullRuntimeNodePath (NodeName r) = None /\
     lease_live (store (world s)) (next_lease e) = false).
Proof.
  intros Hid s. subst s.
  change [TheHandler; TheRoutine; TheRoutine; Clock dt]
    with ([TheHandler; TheRoutine; TheRoutine] ++ [Clock dt]).
  assert (Hrun : forall l1 l2 s0, run r (l1 ++ l2) s0 = run r l2 (run r l1 s0)).
  { induction l1 as [|who l1 IH]; intros l2 s0; [done|].
    simpl. destruct (step r who s0); apply IH. }
  rewrite Hrun, run_registration. cbn [run step world store quiet handler routine inbox trace script].
  split.
  - intros Hdt.
    assert (Hk := registered_key r e).
    set (kv := {| Value := ServerAddr r; CreateRevision := _; ModRevision := _;
                  Version := _; Lease := next_lease e |}) in Hk.
    assert (kvs (advance dt (registered r e)) !! model.FullRuntimeNodePath (NodeName r)
            = Some kv) as ->; [|done].
    apply advance_kvs. split; [done|]. right. eexists. split; [apply registered_lease|].
    rewrite registered_now. simpl. lia.
  - intros Hdt. split.
    + eapply advance_kvs_gone; [apply registered_key|done|apply registered_lease|].
      rewrite registered_now. simpl. lia.
    + unfold lease_live.
      destruct (leases (advance dt (registered r e)) !! next_lease e) as [l|] eqn:Hl; [|done].
      apply advance_leases in Hl as [Hl Ht]. rewrite registered_lease in Hl.
      rewrite registered_now in Ht. simplify_eq/=. lia.
Qed.

Lemma runtime_key_lifetime_witness :
  let s := run gate_1 [TheHandler; TheRoutine; TheRoutine; Clock (5 * Second)]
             (stream (Ok tt) [Ok (model.mkWhoami "worker-1")] (quiet etcd.empty)) in
  kvs (store (world s)) !! "/scheduler/runtime/node/gate-g1" = None.
Proof.
  destruct (runtime_key_lifetime gate_1 "worker-1" etcd.empty (5 * Second))
    as [_ H]; [discriminate|].
  destruct H as [H _]; [by vm_compute|]. exact H.
Defined.

Lemma run_app r l1 l2 s0 : run r (l1 ++ l2) s0 = run r l2 (run r l1 s0).
Proof.
  revert s0. induction l1 as [|who l1 IH]; intros s0; [done|].
  simpl. destruct (step r who s0); apply IH.
Qed.

Lemma run_clock r d h ro inb e t :
  run r [Clock d] {| handler := h; routine := ro; inbox := inb; world := quiet e;
                     trace := t |} =
  {| handler := h; routine := ro; inbox := inb; world := quiet (advance d e);
     trace := t |}.
Proof. reflexivity. Qed.

(** One heartbeat of a registered session, carried through to the renewal. *)
Lemma run_heartbeat r hb frames id e t :
  run r [TheHandler; TheHandler; TheRoutine]
      {| handler := Reading false; routine := Waiting id; inbox := Ok hb :: frames;
         world := quiet e; trace := t |} =
  {| handler := Reading false; routine := Waiting id; inbox := frames;
     world := quiet (KeepAliveOnce id e);
     trace := (t ++ [Received hb]) ++ [KeepAlive id] |}.
Proof.
  cbn [run step step_handler handler inbox routine].
  cbn [step_routine routine world]. by rewrite write_quiet.
Qed.

Lemma KeepAliveOnce_live id e l :
  leases e !! id = Some l ->
  kvs (KeepAliveOnce id e) = kvs e /\ now (KeepAliveOnce id e) = now e /\
  leases (KeepAliveOnce id e) !! id = Some {| ttl := ttl l; expiry := now e + ttl l |}.
Proof. intros Hl. unfold KeepAliveOnce. rewrite Hl. simpl. by rewrite lookup_insert_eq. Qed.

Lemma KeepAliveOnce_gone id e : leases e !! id = None -> KeepAliveOnce id e = e.
Proof. intros Hl. unfold KeepAliveOnce. by rewrite Hl. Qed.

(** X17.  A heartbeat within the time to live renews it from that moment:
    the key then lives until LeaseTime after the renewal, however long ago
    the registration was. *)
Theorem runtime_heartbeat_extends (r : Gate) (name : string) (hb : model.Whoami)
    (e : Etcd) (d1 d2 : Z) :
  next_lease e <> 0 ->
  Z.max 0 d1 < LeaseTime r ->
  let s := run r [TheHandler; TheRoutine; TheRoutine; Clock d1;
                  TheHandler; TheHandler; TheRoutine; Clock d2]
             (stream (Ok tt) [Ok (model.mkWhoami name); Ok hb] (quiet e)) in
  (Z.max 0 d2 < LeaseTime r ->
     Value <$> kvs (store (world s)) !! model.FullRuntimeNodePath (NodeName r)
     = Some (ServerAddr r)) /\
  (LeaseTime r <= Z.max 0 d2 ->
     kvs (store (world s)) !! model.FullRuntimeNodePath (NodeName r) = None).
Proof.
  intros Hid Hd1 s. subst s.
  change [TheHandler; TheRoutine; TheRoutine; Clock d1;
          TheHandler; TheHandler; TheRoutine; Clock d2]
    with ([TheHandler; TheRoutine; TheRoutine] ++ [Clock d1] ++
          [TheHandler; TheHandler; TheRoutine] ++ [Clock d2]).
  rewrite run_app, run_registration, run_app, run_clock, run_app, run_heartbeat,
    run_clock.
  cbn [world store quiet].
  set (e1 := advance d1 (registered r e)).
  assert (Hk := registered_key r e).
  set (kv := {| Value := ServerAddr r; CreateRevision := _; ModRevision := _;
                Version := _; Lease := next_lease e |}) in Hk.
  assert (Hl1 : leases e1 !! next_lease e =
                Some {| ttl := LeaseTime r; expiry := now e + LeaseTime r |}).
  { apply advance_leases. split; [apply registered_lease|].
    rewrite registered_now. simpl. lia. }
  assert (Hk1 : kvs e1 !! model.FullRuntimeNodePath (NodeName r) = Some kv).
  { apply advance_kvs. split; [done|]. right. eexists. split; [apply registered_lease|].
    rewrite registered_now. simpl. lia. }
  destruct (KeepAliveOnce_live _ _ _ Hl1) as (Hkvs & Hnow & Hl2).
  cbn [ttl] in Hl2.
  split.
  - intros Hd2.
    assert (kvs (advance d2 (KeepAliveOnce (next_lease e) e1))
              !! model.FullRuntimeNodePath (NodeName r) = Some kv) as ->; [|done].
    apply advance_kvs. rewrite Hkvs. split; [done|]. right. eexists.
    split; [exact Hl2|]. rewrite Hnow. simpl. lia.
  - intros Hd2. eapply advance_kvs_gone; [by rewrite Hkvs|done|exact Hl2|].
    rewrite Hnow. simpl. lia.
Qed.

Lemma runtime_heartbeat_extends_witness :
  let s := run gate_1 [TheHandler; TheRoutine; TheRoutine; Clock (3 * Second);
                       TheHandler; TheHandler; TheRoutine; Clock (3 * Second)]
             (stream (Ok tt) [Ok (model.mkWhoami "worker-1"); Ok (model.mkWhoami "")]
                (quiet etcd.empty)) in
  Value <$> kvs (store (world s)) !! "/scheduler/runtime/node/gate-g1"
  = Some "10.0.0.1:8080".
Proof.
  destruct (runtime_heartbeat_extends gate_1 "worker-1" (model.mkWhoami "") etcd.empty
              (3 * Second) (3 * Second)) as [H _]; [discriminate|by vm_compute|].
  apply H. by vm_compute.
Defined.

(** X18.  A heartbeat after the lease ran out is still forwarded as a
    renewal but revives nothing: lease and key stay gone while the routine
    goes on waiting. *)
Theorem runtime_late_heartbeat (r : Gate) (name : string) (hb : model.Whoami)
    (e : Etcd) (d1 : Z) :
  next_lease e <> 0 ->
  LeaseTime r <= Z.max 0 d1 ->
  let s := run r [TheHandler; TheRoutine; TheRoutine; Clock d1;
                  TheHandler; TheHandler; TheRoutine]
             (stream (Ok tt) [Ok (model.mkWhoami name); Ok hb] (quiet e)) in
  routine s = Waiting (next_lease e) /\
  renewals (trace s) = 1%nat /\
  kvs (store (world s)) !! model.FullRuntimeNodePath (NodeName r) = None /\
  lease_live (store (world s)) (next_lease e) = false.
Proof.
  intros Hid Hd1 s. subst s.
  change [TheHandler; TheRoutine; TheRoutine; Clock d1;
          TheHandler; TheHandler; TheRoutine]
    with ([TheHandler; TheRoutine; TheRoutine] ++ [Clock d1] ++
          [TheHandler; TheHandler; TheRoutine]).
  rewrite run_app, run_registration, run_app, run_clock, run_heartbeat.
  cbn [world store quiet handler routine inbox trace script].
  set (e1 := advance d1 (registered r e)).
  assert (Hl1 : leases e1 !! next_lease e = None).
  { destruct (leases e1 !! next_lease e) as [l|] eqn:Hl; [|done].
    apply advance_leases in Hl as [Hl Ht]. rewrite registered_lease in Hl.
    rewrite registered_now in Ht. simplify_eq/=. lia. }
  rewrite (KeepAliveOnce_gone _ _ Hl1).
  split; [done|]. split; [done|]. split.
  - eapply advance_kvs_gone; [apply registered_key|done|apply registered_lease|].
    rewrite registered_now. simpl. lia.
  - unfold lease_live. by rewrite Hl1.
Qed.

Lemma runtime_late_heartbeat_witness :
  let s := run gate_1 [TheHandler; TheRoutine; TheRoutine; Clock (4 * Second);
                       TheHandler; TheHandler; TheRoutine]
             (stream (Ok tt) [Ok (model.mkWhoami "worker-1"); Ok (model.mkWhoami "")]
                (quiet etcd.empty)) in
  kvs (store (world s)) !! "/scheduler/runtime/node/gate-g1" = None.
Proof.
  destruct (runtime_late_heartbeat gate_1 "worker-1" (model.mkWhoami "") etcd.empty
              (4 * Second)) as (_ & _ & H & _); [discriminate|by vm_compute|].
  exact H.
Defined.

Lemma registered_next_lease r e : next_lease (registered r e) = next_lease e + 1.
Proof. done. Qed.

Lemma registered_other_lease r e id :
  id <> next_lease e -> leases (registered r e) !! id = leases e !! id.
Proof. intros H. unfold registered. simpl. by rewrite lookup_insert_ne. Qed.

(** X19.  Two sessions on one gate share one node key: the second
    registration attaches the key to its own lease, so when that lease runs
    out the key is deleted although the lease of the first session,
    renewed in time, is live. *)
Theorem runtime_sessions_share_key (r : Gate) (a b : string) (hb : model.Whoami)
    (e : Etcd) (d1 d2 : Z) :
  next_lease e + 1 <> 0 ->
  Z.max 0 d1 < LeaseTime r -> Z.max 0 d2 < LeaseTime r ->
  LeaseTime r <= Z.max 0 d1 + Z.max 0 d2 ->
  let sA := run r [TheHandler; TheRoutine; TheRoutine]
              (stream (Ok tt) [Ok (model.mkWhoami a); Ok hb] (quiet e)) in
  let sB := run r [TheHandler; TheRoutine; TheRoutine]
              (stream (Ok tt) [Ok (model.mkWhoami b)] (world sA)) in
  let sA' := run r [Clock d1; TheHandler; TheHandler; TheRoutine; Clock d2]
               (with_world sA (world sB)) in
  routine sA = Waiting (next_lease e) /\
  routine sB = Waiting (next_lease e + 1) /\
  Lease <$> kvs (store (world sB)) !! model.FullRuntimeNodePath (NodeName r)
    = Some (next_lease e + 1) /\
  renewals (trace sA') = 1%nat /\
  lease_live (store (world sA')) (next_lease e) = true /\
  kvs (store (world sA')) !! model.FullRuntimeNodePath (NodeName r) = None.
Proof.
  intros Hid Hd1 Hd2 Hsum sA sB sA'. subst sA' sB sA.
  rewrite run_registration. cbn [world]. rewrite run_registration.
  unfold with_world. cbn [handler routine inbox trace world].
  change [Clock d1; TheHandler; TheHandler; TheRoutine; Clock d2]
    with ([Clock d1] ++ [TheHandler; TheHandler; TheRoutine] ++ [Clock d2]).
  rewrite run_app, run_clock, run_app, run_heartbeat, run_clock.
  cbn [world store quiet handler routine inbox trace].
  rewrite registered_next_lease.
  set (eA := registered r e). set (eB := registered r eA).
  set (key := model.FullRuntimeNodePath (NodeName r)).
  assert (HkB := registered_key r eA). fold key eB in HkB.
  change (next_lease eA) with (next_lease e + 1) in HkB.
  set (kv := {| Value := ServerAddr r; CreateRevision := _; ModRevision := _;
                Version := _; Lease := next_lease e + 1 |}) in HkB.
  assert (HlB : leases eB !! (next_lease e + 1) =
                Some {| ttl := LeaseTime r; expiry := now e + LeaseTime r |}).
  { exact (registered_lease r eA). }
  assert (HlA : leases eB !! next_lease e =
                Some {| ttl := LeaseTime r; expiry := now e + LeaseTime r |}).
  { unfold eB. rewrite registered_other_lease
      by (change (next_lease eA) with (next_lease e + 1); lia).
    apply registered_lease. }
  assert (Hnow : now eB = now e) by done.
  set (e1 := advance d1 eB).
  assert (HlA1 : leases e1 !! next_lease e =
                 Some {| ttl := LeaseTime r; expiry := now e + LeaseTime r |}).
  { apply advance_leases. split; [done|]. rewrite Hnow. simpl. lia. }
  assert (HlB1 : leases e1 !! (next_lease e + 1) =
                 Some {| ttl := LeaseTime r; expiry := now e + LeaseTime r |}).
  { apply advance_leases. split; [done|]. rewrite Hnow. simpl. lia. }
  assert (Hk1 : kvs e1 !! key = Some kv).
  { apply advance_kvs. split; [done|]. right. eexists. split; [exact HlB|].
    rewrite Hnow. simpl. lia. }
  assert (Hnow1 : now e1 = now e + Z.max 0 d1) by done.
  destruct (KeepAliveOnce_live _ _ _ HlA1) as (Hkvs & Hnow2 & HlA2).
  cbn [ttl] in HlA2.
  assert (HlB2 : leases (KeepAliveOnce (next_lease e) e1) !! (next_lease e + 1) =
                 Some {| ttl := LeaseTime r; expiry := now e + LeaseTime r |}).
  { unfold KeepAliveOnce. rewrite HlA1. simpl. rewrite lookup_insert_ne by lia. done. }
  split; [done|]. split; [done|]. split; [by rewrite HkB|]. split; [done|]. split.
  - unfold lease_live.
    assert (leases (advance d2 (KeepAliveOnce (next_lease e) e1)) !! next_lease e =
            Some {| ttl := LeaseTime r; expiry := now e1 + LeaseTime r |}) as ->.
    { apply advance_leases. split; [done|]. rewrite Hnow2. simpl. lia. }
    simpl. apply Z.ltb_lt. rewrite Hnow2. lia.
  - eapply advance_kvs_gone; [by rewrite Hkvs|simpl; lia|exact HlB2|].
    rewrite Hnow2, Hnow1. simpl. lia.
Qed.

Lemma runtime_sessions_share_key_witness :
  let sA := run gate_1 [TheHandler; TheRoutine; TheRoutine]
              (stream (Ok tt) [Ok (model.mkWhoami "worker-1"); Ok (model.mkWhoami "")]
                 (quiet etcd.empty)) in
  let sB := run gate_1 [TheHandler; TheRoutine; TheRoutine]
              (stream (Ok tt) [Ok (model.mkWhoami "worker-2")] (world sA)) in
  let sA' := run gate_1 [Clock (3 * Second); TheHandler; TheHandler; TheRoutine;
                         Clock (3 * Second)]
               (with_world sA (world sB)) in
  lease_live (store (world sA')) 1 = true /\
  kvs (store (world sA')) !! "/scheduler/runtime/node/gate-g1" = None.
Proof.
  destruct (runtime_sessions_share_key gate_1 "worker-1" "worker-2" (model.mkWhoami "")
              etcd.empty (3 * Second) (3 * Second))
    as (_ & _ & _ & _ & H1 & H2); [discriminate|by vm_compute..|].
  split; [exact H1|exact H2].
Defined.


Section StatusMore.
Variable ValueToState : string -> Result model.State.

(** *** Reads only *)

Lemma status_loop_reads_only p l data items w :
  exists n, store (status_loop ValueToState p l data items w).2 = bystanders n w.
Proof.
  revert data items w. induction l as [|kv l IH]; intros data items w.
  { by exists 0%nat. }
  cbn [status_loop]. destruct (ValueToState (Value kv.2)) as [s|err].
  2:{ by exists 0%nat. }
  destruct (0 <? String.length (model.RuntimeNode s))%nat.
  - pose proof (read_world (Get (model.RuntimeNode s)) w) as Hw.
    destruct (read (Get (model.RuntimeNode s)) w) as [[resp|err] w1]; cbn [snd] in Hw.
    + destruct (bool_decide (model.Format p = "table"));
        [destruct (IH (data ++ [[model.TaskID s; model.StateTaskName s;
            model.StateState s; model.Action s; model.RuntimeNode s;
            fmt_bool (model.InRuntime s); model.CreateTime s; model.UpdateTime s;
            match Kvs resp with kv0 :: _ => Value kv0.2 | [] => "" end]]) items w1)
           as [n Hn]
        |destruct (IH data (items ++ [copy_state s]) w1) as [n Hn]];
        exists (S n); rewrite Hn, Hw; apply bystanders_after.
    + exists 1%nat. by rewrite Hw.
  - destruct (bool_decide (model.Format p = "table")); apply IH.
Qed.

(** X20.  status only reads: whatever the query and whatever fails, the
    store afterwards is what the other clients alone made of it. *)
Theorem status_reads_only (ctx : Context) (w : World) :
  exists n, store (status ValueToState ctx w).2 = bystanders n w.
Proof.
  unfold status. destruct (ShouldBindQuery ctx) as [p|err]; [|by exists 0%nat].
  pose proof (read_world (GetRange (status_startKey p) endGlobalTaskKey
                            (status_sortOrder p) (status_limit p)) w) as Hw1.
  destruct (read (GetRange _ _ _ _) w) as [[resp|err] w1]; cbn [snd] in Hw1.
  2:{ exists 1%nat. by rewrite Hw1. }
  pose proof (read_world (GetCountPrefix model.GlobalTaskPrefixState) w1) as Hw2.
  destruct (read (GetCountPrefix _) w1) as [[resp2|err] w2]; cbn [snd] in Hw2.
  2:{ exists 2%nat. rewrite Hw2, Hw1. apply (bystanders_after 1). }
  destruct (status_loop_reads_only p (Kvs resp) [] [] w2) as [n Hn].
  assert (Hn' : store (status_loop ValueToState p (Kvs resp) [] [] w2).2 =
                bystanders (S (S n)) w).
  { rewrite Hn, Hw2, bystanders_after, Hw1. apply bystanders_after. }
  exists (S (S n)).
  destruct (status_loop ValueToState p (Kvs resp) [] [] w2) as [[out|[data items]] w3];
    cbn [snd] in *; [done|].
  by repeat case_match.
Qed.

(** *** The id of a query *)

Lemma status_loop_format p q l data items w :
  model.Format p = model.Format q ->
  status_loop ValueToState p l data items w = status_loop ValueToState q l data items w.
Proof.
  intros Hf. revert data items w. induction l as [|kv l IH]; intros data items w; [done|].
  cbn [status_loop]. rewrite Hf.
  destruct (ValueToState (Value kv.2)); [|done].
  destruct (if (0 <? _)%nat then _ else _) as [[ip|err] w1]; [|done].
  destruct (bool_decide _); apply IH.
Qed.

(** X21.  A query with an id is answered exactly like the same query without
    id from the start of the listing: the id makes the handler drop the
    start key and selects nothing. *)
Theorem status_ignores_id (p : model.StatusRequest) (w : World) :
  model.ID p <> "" ->
  status ValueToState (get p) w = status ValueToState (get (from_start p)) w.
Proof.
  intros Hid. unfold status. cbn [get ShouldBindQuery].
  assert (Hs : status_startKey p = status_startKey (from_start p)).
  { unfold status_startKey. cbn [from_start model.ID model.StartKey].
    by rewrite (bool_decide_eq_false_2 _ Hid). }
  rewrite <- Hs.
  change (status_limit (from_start p)) with (status_limit p).
  change (status_sortOrder (from_start p)) with (status_sortOrder p).
  destruct (read (GetRange _ _ _ _) w) as [[resp|err] w1]; [|done].
  destruct (read (GetCountPrefix _) w1) as [[resp2|err] w2]; [|done].
  rewrite (status_loop_format p (from_start p)) by done.
  reflexivity.
Qed.

(** *** The shape of the replies *)

Lemma status_loop_shape p l data items w data' items' w' :
  status_loop ValueToState p l data items w = (inr (data', items'), w') ->
  (Forall (fun row => length row = length title) data ->
   Forall (fun row => length row = length title) data') /\
  (Forall (fun it => rIp it = "") items -> Forall (fun it => rIp it = "") items') /\
  (length items' <= length items + length l)%nat /\
  (model.Format p <> "table" -> length items' = (length items + length l)%nat).
Proof.
  revert data items w. induction l as [|kv l IH]; intros data items w.
  { intros [= <- <- _]. simpl. repeat split; try done; lia. }
  cbn [status_loop]. destruct (ValueToState (Value kv.2)) as [s|err]; [|done].
  destruct (if (0 <? _)%nat then _ else _) as [[ip|err] w1]; [|done].
  destruct (bool_decide (model.Format p = "table")) eqn:Hf; intros Hl;
    apply IH in Hl as (H1 & H2 & H3 & H4).
  - apply bool_decide_eq_true in Hf. split; [|split; [done|split]].
    + intros Hd. apply H1. apply Forall_app. split; [done|]. by constructor.
    + simpl. lia.
    + done.
  - split; [done|]. split; [|split].
    + intros Hi. apply H2. apply Forall_app. split; [done|]. by constructor.
    + rewrite length_app in H3. simpl in *. lia.
    + intros Hnt. rewrite (H4 Hnt), length_app. simpl. lia.
Qed.

Lemma limited_bound {A} (limit : Z) (l : list A) :
  0 < limit -> Z.of_nat (length (limited limit l)) <= limit.
Proof.
  intros H. unfold limited. rewrite (proj2 (Z.ltb_lt _ _) H), length_take. lia.
Qed.

Lemma read_GetRange_bound start end_ order limit w resp w' :
  read (GetRange start end_ order limit) w = (Ok resp, w') ->
  0 < limit -> Z.of_nat (length (Kvs resp)) <= limit.
Proof.
  unfold read. destruct w as [e [|t rest]].
  - rewrite call_nil. intros [= <- _]. apply limited_bound.
  - rewrite call_cons. destruct (fault t); [done|]. intros [= <- _]. apply limited_bound.
Qed.

(** X22.  The reply of status follows the format: data in json only for
    "json" (status 200, the start key of the page, no item with an ip, and
    at most limit items for a positive limit), a table only for "table"
    (the header is the title, every row has a column per title), nothing
    written for any other format; every error reply is 500 with code
    500. *)
Theorem status_reply_shape (p : model.StatusRequest) (w : World) :
  match (status ValueToState (get p) w).1 with
  | Replied (JSONStatus st data) =>
      st = 200 /\ model.Format p = "json" /\
      StartKey data = status_startKey p /\
      Forall (fun it => rIp it = "") (Items data) /\
      (0 < status_limit p -> Z.of_nat (length (Items data)) <= status_limit p)
  | Replied (Table st header rows) =>
      st = 200 /\ model.Format p = "table" /\ header = title /\
      Forall (fun row => length row = length title) rows
  | Replied (JSONMessage st code msg) => st = 500 /\ code = 500
  | Silent => model.Format p <> "table" /\ model.Format p <> "json"
  | Panicked _ => False
  end.
Proof.
  unfold status. cbn [get ShouldBindQuery].
  destruct (read (GetRange _ _ _ _) w) as [[resp|err] w1] eqn:Hr; [|done].
  destruct (read (GetCountPrefix _) w1) as [[resp2|err] w2]; [|done].
  destruct (status_loop _ _ _ _ _ _) as [[out|[data items]] w3] eqn:Hloop.
  { apply status_loop_early in Hloop as [msg ->]. done. }
  apply status_loop_shape in Hloop as (H1 & H2 & H3 & H4).
  destruct (bool_decide (model.Format p = "table")) eqn:Ht.
  { apply bool_decide_eq_true in Ht. cbn [fst]. repeat split; try done. by apply H1. }
  apply bool_decide_eq_false in Ht.
  destruct (bool_decide (model.Format p = "json")) eqn:Hj.
  - apply bool_decide_eq_true in Hj. cbn [fst Items StartKey].
    repeat split; try done; [by apply H2|].
    intros Hl. rewrite (H4 Ht). simpl.
    by apply (read_GetRange_bound _ _ _ _ _ _ _ Hr).
  - apply bool_decide_eq_false in Hj. done.
Qed.

(** *** The loop on an undisturbed store *)

Lemma table_rows_cons e kv l s :
  ValueToState (Value kv.2) = Ok s ->
  table_rows ValueToState e (kv :: l) = table_row e s :: table_rows ValueToState e l.
Proof. intros Hs. unfold table_rows. simpl. by rewrite Hs. Qed.

Lemma table_rows_length e l :
  Forall (decodable ValueToState) l -> length (table_rows ValueToState e l) = length l.
Proof.
  induction 1 as [|kv l [s Hs] _ IH]; [done|].
  rewrite (table_rows_cons _ _ _ _ Hs). simpl. by rewrite IH.
Qed.

Lemma status_loop_quiet p l data items e :
  Forall (decodable ValueToState) l ->
  status_loop ValueToState p l data items (quiet e) =
  (inr (if bool_decide (model.Format p = "table")
        then (data ++ table_rows ValueToState e l, items)
        else (data, items ++ render ValueToState l)), quiet e).
Proof.
  intros Hl. revert data items.
  induction Hl as [|kv l [s Hs] _ IH]; intros data items.
  { simpl. rewrite !app_nil_r. by destruct (bool_decide _). }
  cbn [status_loop]. rewrite Hs.
  assert (Hlook :
    (if (0 <? String.length (model.RuntimeNode s))%nat
     then match read (Get (model.RuntimeNode s)) (quiet e) with
          | (Err err, w) => (Err err, w)
          | (Ok resp, w) =>
              (Ok match Kvs resp with kv0 :: _ => Value kv0.2 | [] => "" end, w)
          end
     else (Ok "", quiet e)) = (Ok (node_ip e s), quiet e)).
  { unfold node_ip. destruct (0 <? _)%nat; [|done]. rewrite read_quiet.
    unfold Get. by destruct (kvs e !! model.RuntimeNode s). }
  rewrite Hlook, (render_cons _ _ _ _ Hs).
  rewrite (table_rows_cons _ _ _ _ Hs).
  destruct (bool_decide (model.Format p = "table")) eqn:Hf; rewrite IH, ?Hf;
    by rewrite <- app_assoc.
Qed.

Lemma status_loop_bad p good bad rest err data items e :
  Forall (decodable ValueToState) good ->
  ValueToState (Value bad.2) = Err err ->
  status_loop ValueToState p (good ++ bad :: rest) data items (quiet e) =
  (inl (error2 500 err), quiet e).
Proof.
  intros Hg Hb. revert data items.
  induction Hg as [|kv l [s Hs] _ IH]; intros data items.
  { cbn [app status_loop]. by rewrite Hb. }
  cbn [app status_loop]. rewrite Hs.
  destruct (0 <? _)%nat; [rewrite read_quiet|]; destruct (bool_decide _); apply IH.
Qed.

(** X23.  On an undisturbed store the table has one row per entry of the
    page, in order, and the last column of a row is the value stored under
    the key the state's RuntimeNode names; it is empty, without failing,
    when the task is bound to no node or the node has no record. *)
Theorem status_table (p : model.StatusRequest) (e : Etcd) :
  model.Format p = "table" ->
  Forall (decodable ValueToState) (served_page p e) ->
  status ValueToState (get p) (quiet e) =
  (Replied (Table 200 title (table_rows ValueToState e (served_page p e))), quiet e) /\
  length (table_rows ValueToState e (served_page p e)) = length (served_page p e).
Proof.
  intros Hf Hl. split.
  - unfold status. cbn [get ShouldBindQuery].
    rewrite !read_quiet. fold (served_page p e). rewrite status_loop_quiet by done.
    rewrite Hf. reflexivity.
  - by apply table_rows_length.
Qed.

(** X24.  One entry of the page that does not parse fails the whole request:
    the reply is 500 with the parse error, in either format. *)
Theorem status_bad_record (p : model.StatusRequest) (e : Etcd)
    (good rest : list (string * KeyValue)) (bad : string * KeyValue) (err : string) :
  served_page p e = good ++ bad :: rest ->
  Forall (decodable ValueToState) good ->
  ValueToState (Value bad.2) = Err err ->
  status ValueToState (get p) (quiet e) =
  (Replied (JSONMessage 500 500 err), quiet e).
Proof.
  intros Hp Hg Hb. unfold status. cbn [get ShouldBindQuery].
  rewrite !read_quiet. fold (served_page p e). rewrite Hp.
  by rewrite (status_loop_bad p good bad rest err).
Qed.

(** *** Descending order *)



End StatusMore.


Lemma status_ignores_id_witness :
  (status decode_name (get id_query) (quiet five_tasks)).1 =
  (status decode_name (get (query 2)) (quiet five_tasks)).1.
Proof.
  rewrite (status_ignores_id decode_name id_query (quiet five_tasks)); [|discriminate].
  reflexivity.
Defined.

Lemma decodable_check (ValueToState : string -> Result model.State) l :
  forallb (fun kv : string * KeyValue =>
             match ValueToState (Value kv.2) with Ok _ => true | Err _ => false end) l
  = true ->
  Forall (decodable ValueToState) l.
Proof.
  induction l as [|kv l IH]; [constructor|]. simpl.
  intros [H1 H2]%andb_true_iff. constructor; [|by apply IH].
  unfold decodable. destruct (ValueToState (Value kv.2)); [by eexists|done].
Qed.

Lemma status_table_witness :
  (status decode_bound (get table_query) (quiet bound_tasks)).1 =
  Replied (Table 200 title
    [["a"; "a"; "CanRun"; ""; "/scheduler/runtime/node/n1"; "true"; ""; ""; "10.0.0.9:7000"];
     ["b"; "b"; "CanRun"; ""; "/scheduler/runtime/node/n2"; "false"; ""; ""; ""];
     ["c"; "c"; "CanRun"; ""; ""; "false"; ""; ""; ""]]).
Proof.
  destruct (status_table decode_bound table_query bound_tasks) as [H _].
  - reflexivity.
  - apply decodable_check. by vm_compute.
  - rewrite H. by vm_compute.
Defined.

Lemma status_bad_record_witness :
  (status decode_bound (get table_query) (quiet spoiled_tasks)).1 =
  Replied (JSONMessage 500 500 "invalid character 'b'").
Proof.
  rewrite (status_bad_record decode_bound table_query spoiled_tasks
             (take 2 (served_page table_query spoiled_tasks))
             (drop 3 (served_page table_query spoiled_tasks))
             (model.FullGlobalTaskStatePath "bb",
              {| Value := "bad"; CreateRevision := 6; ModRevision := 6;
                 Version := 1; Lease := 0 |})
             "invalid character 'b'").
  - reflexivity.
  - by vm_compute.
  - apply decodable_check. by vm_compute.
  - reflexivity.
Defined.





Section Accounts.
Import manage.
Variable DB : Type.
Variable insert : LoginCore -> DB -> option string * DB.
Variable queryNeedPassword : LoginCore -> DB -> Result LoginCore.
Variable query : LoginCore -> DB -> Result LoginCore.
Variable delete : LoginCore -> DB -> option string * DB.
Variable md5sum : string -> string.
Variable GenToken : Z -> string -> string -> Result string.
Variable Atoi : string -> Result Z.
Variable Sprintf_verbs : string -> string.

(** X26.  login answers 200 only when the stored record has the user name of
    the request and the md5sum of its password, and then with the token
    header and the stored record as data; every other outcome is a 500
    reply without token. *)
Theorem login_sound (c : Context) (db : DB) :
  match login DB queryNeedPassword md5sum GenToken Sprintf_verbs c db with
  | Data token data =>
      exists lc rv tok,
        ShouldBindJSON c = Ok lc /\ queryNeedPassword lc db = Ok rv /\
        UserName rv = UserName lc /\ Password rv = md5sum (Password lc) /\
        GenToken day serverName secretToken = Ok tok /\
        token = Some tok /\ data = Some rv
  | Failure status code _ => status = 500 /\ code = 500
  end.
Proof.
  unfold login. destruct (ShouldBindJSON c) as [lc|err]; [|done].
  destruct (queryNeedPassword lc db) as [rv|err] eqn:Hq; [|done].
  destruct (bool_decide (UserName rv = UserName lc)) eqn:Hu; [|done].
  destruct (bool_decide (Password rv = md5sum (Password lc))) eqn:Hp; [|done].
  cbn [negb orb]. apply bool_decide_eq_true in Hu, Hp.
  destruct (GenToken day serverName secretToken) as [tok|err] eqn:Hg; [|done].
  by exists lc, rv, tok.
Qed.

(** X27.  The token does not depend on the account: it is what
    jwt.GenToken returns for the constants of the file (24 hours,
    serverName, secretToken), so two logins that succeed get the same
    token, whoever logs in. *)
Theorem login_token_same_for_all (c1 c2 : Context) (db1 db2 : DB)
    (t1 t2 : option string) (d1 d2 : option LoginCore) :
  login DB queryNeedPassword md5sum GenToken Sprintf_verbs c1 db1 = Data t1 d1 ->
  login DB queryNeedPassword md5sum GenToken Sprintf_verbs c2 db2 = Data t2 d2 ->
  t1 = t2.
Proof.
  assert (Htok : forall c db t d,
    login DB queryNeedPassword md5sum GenToken Sprintf_verbs c db = Data t d ->
    Ok <$> t = Some (GenToken day serverName secretToken)).
  { intros c db t d. unfold login.
    destruct (ShouldBindJSON c) as [lc|err]; [|done].
    destruct (queryNeedPassword lc db) as [rv|err]; [|done].
    destruct (_ || _); [done|].
    destruct (GenToken day serverName secretToken) as [tok|err]; [|done].
    by intros [= <- _]. }
  intros H1%Htok H2%Htok. destruct t1, t2; simplify_eq/=; congruence.
Qed.

(** X28.  deleteUser answers 200 with an empty body whenever the id parses,
    whatever the delete returned; the row it deletes is uint(id), so a
    negative id wraps to 2^64 + id; an id that does not parse is answered
    500 and the table is left alone. *)
Theorem deleteUser_outcome (c : Context) (db : DB) :
  match Atoi (Param_id c) with
  | Ok id =>
      deleteUser DB delete Atoi Sprintf_verbs c db =
        (Data None None,
         (delete {| ID := id mod 2 ^ 64; UserName := ""; Password := "" |} db).2) /\
      0 <= id mod 2 ^ 64 < 2 ^ 64 /\
      (id < 0 -> - 2 ^ 63 <= id ->
       id mod 2 ^ 64 = 2 ^ 64 + id)
  | Err err =>
      deleteUser DB delete Atoi Sprintf_verbs c db =
        (Failure 500 500 (Sprintf0 Sprintf_verbs err), db)
  end.
Proof.
  unfold deleteUser, to_uint. destruct (Atoi (Param_id c)) as [id|err]; [|done].
  split; [by destruct (delete _ db)|]. split; [apply Z.mod_pos_bound; lia|].
  intros Hneg Hlo. symmetry. apply Z.mod_unique with (q := -1); lia.
Qed.

End Accounts.


Lemma login_token_same_for_all_witness :
  manage.login accounts find_account hash token_of id (sign_in "ann" "pw-ann") two_accounts
    = manage.Data (Some "ktuo.@@112233")
                  (Some (manage.mkLoginCore 1 "ann" (hash "pw-ann"))) /\
  manage.login accounts find_account hash token_of id (sign_in "bob" "pw-bob") two_accounts
    = manage.Data (Some "ktuo.@@112233")
                  (Some (manage.mkLoginCore 2 "bob" (hash "pw-bob"))) /\
  Some "ktuo.@@112233" = Some "ktuo.@@112233".
Proof.
  split; [reflexivity|]. split; [reflexivity|].
  exact (login_token_same_for_all accounts find_account hash token_of id
           (sign_in "ann" "pw-ann") (sign_in "bob" "pw-bob") two_accounts two_accounts
           (Some "ktuo.@@112233") (Some "ktuo.@@112233")
           (Some (manage.mkLoginCore 1 "ann" (hash "pw-ann")))
           (Some (manage.mkLoginCore 2 "bob" (hash "pw-bob")))
           eq_refl eq_refl).
Defined.

Lemma session_without_lease_blocks_witness :
  let s := run gate_1 [TheHandler; TheRoutine; TheHandler; TheHandler; TheHandler]
             (stream (Ok tt) frames_1
                {| store := etcd.empty; script := [mkTurn [] (Some "timeout")] |}) in
  routine s = ReturnedErr "timeout" /\ handler s = Sending /\
  received (trace s) = 2%nat /\ inbox s = [Err "EOF"] /\
  handler (run gate_1 [TheRoutine; Clock Second; TheHandler] s) = Sending.
Proof.
  cbn zeta.
  destruct (session_without_lease_blocks gate_1 (Ok tt) frames_1
              {| store := etcd.empty; script := [mkTurn [] (Some "timeout")] |}
              [TheHandler; TheRoutine; TheHandler; TheHandler; TheHandler]
              "timeout" eq_refl) as (_ & _ & H).
  destruct (H eq_refl [TheRoutine; Clock Second; TheHandler]) as (Hh & _ & _).
  split; [reflexivity|]. split; [reflexivity|]. split; [reflexivity|].
  split; [reflexivity|exact Hh].
Defined.
